(** * Juilcal GraphQL server: the resolvers of [src/index.ts]

    A shallow embedding of the four query resolvers ([events], [uniqueTags],
    [distinctVenues], [lastUpdated]) and of the construction of the statement
    inside [events], together with the properties of the specification.

    Conventions of the embedding.
    - A JavaScript string is a [string] (a sequence of bytes); the case and
      white space functions are the ASCII ones, which are the functions of
      the engine on ASCII strings. The properties of the resolvers use no
      property of these functions, except where they are stated of ASCII
      strings.
    - An optional GraphQL argument ([String], absent or [null]) is an
      [option string]; [None] stands for both [undefined] and [null], which
      the resolvers never tell apart.
    - An exception is a value of [Exn]; an [async] function is a function of
      the state of the connections that returns a value or an exception, and
      the new state.
    - The MySQL server is a [Backend]: whether it accepts a connection and what
      it answers to a statement and its values. [connection.end()] is taken to
      succeed, and the messages written with [console.error], which no caller
      sees, are left out. *)

From Stdlib Require Import String Ascii List ZArith Bool Arith Lia DecimalString.
From Stdlib Require Import DecimalPos DecimalZ.
Import ListNotations.
Open Scope string_scope.

(** ** JavaScript library functions used by the resolvers *)

Module Js.

(** [if (s)] on a string that may be [undefined] or [null]: only a
    non-empty string is truthy. *)
Definition truthy (v : option string) : bool :=
  match v with
  | Some (String _ _) => true
  | _ => false
  end.

Definition isUpper (c : ascii) : bool :=
  ((65 <=? nat_of_ascii c) && (nat_of_ascii c <=? 90))%nat.

Definition isLower (c : ascii) : bool :=
  ((97 <=? nat_of_ascii c) && (nat_of_ascii c <=? 122))%nat.

Definition lowerChar (c : ascii) : ascii :=
  if isUpper c then ascii_of_nat (nat_of_ascii c + 32)%nat else c.

Definition upperChar (c : ascii) : ascii :=
  if isLower c then ascii_of_nat (nat_of_ascii c - 32)%nat else c.

(** [String.prototype.toLowerCase] and [toUpperCase] on the letters [A] to [Z]
    and [a] to [z]; every other byte is left as it is. The functions of the
    engine also map the letters outside ASCII (so [toUpperCase] sends the long
    s, U+017F, to [S]): the two definitions are the functions of the code on
    ASCII strings, see [isAscii]. What is proved below of the resolvers uses
    no property of the two functions, except where it is stated of ASCII
    strings. *)
Fixpoint toLowerCase (s : string) : string :=
  match s with
  | EmptyString => EmptyString
  | String c s' => String (lowerChar c) (toLowerCase s')
  end.

Fixpoint toUpperCase (s : string) : string :=
  match s with
  | EmptyString => EmptyString
  | String c s' => String (upperChar c) (toUpperCase s')
  end.

(** The ASCII white space removed by [trim]: tab, line feed, vertical tab,
    form feed, carriage return and space. The [trim] of the engine also
    removes the white space outside ASCII (U+00A0, U+FEFF and the like), so
    [trim] below is the function of the code on ASCII strings. *)
Definition isSpace (c : ascii) : bool :=
  let n := nat_of_ascii c in
  (((9 <=? n) && (n <=? 13)) || (n =? 32))%nat.

Fixpoint trimStart (s : string) : string :=
  match s with
  | EmptyString => EmptyString
  | String c s' => if isSpace c then trimStart s' else s
  end.

Fixpoint trimEnd (s : string) : string :=
  match s with
  | EmptyString => EmptyString
  | String c s' =>
      match trimEnd s' with
      | EmptyString => if isSpace c then EmptyString else String c EmptyString
      | t => String c t
      end
  end.

(** [String.prototype.trim]. *)
Definition trim (s : string) : string := trimEnd (trimStart s).

(** The strings on which the definitions above are the functions of the
    engine: every byte is below 128. *)
Definition isAsciiChar (c : ascii) : bool := (nat_of_ascii c <? 128)%nat.

Fixpoint isAscii (s : string) : bool :=
  match s with
  | EmptyString => true
  | String c s' => isAsciiChar c && isAscii s'
  end.

(** [Array.prototype.includes] on an array of strings. *)
Definition includes (l : list string) (s : string) : bool :=
  existsb (String.eqb s) l.

(** [Array.prototype.join]. *)
Definition join (sep : string) (l : list string) : string :=
  String.concat sep l.

(** [s.split(",")]: the pieces between the commas; never empty. *)
Fixpoint splitComma (s : string) : list string :=
  match s with
  | EmptyString => [EmptyString]
  | String c s' =>
      if Ascii.eqb c ","
      then EmptyString :: splitComma s'
      else match splitComma s' with
           | piece :: pieces => String c piece :: pieces
           | [] => [String c EmptyString]
           end
  end.

(** [Array.from(new Set(l))]: the first occurrence of every string, in the
    order of insertion. *)
Fixpoint uniqueFrom (seen : list string) (l : list string) : list string :=
  match l with
  | [] => []
  | x :: l' =>
      if includes seen x then uniqueFrom seen l'
      else x :: uniqueFrom (x :: seen) l'
  end.

Definition unique (l : list string) : list string := uniqueFrom [] l.

(** A GraphQL [Int] argument as the resolver sees it. The schema only lets
    [undefined], [null] and 32-bit integers through; [JsOther] stands for a
    value of any other type, which the [typeof] test of the resolver
    rejects. *)
Inductive Value : Type :=
| JsUndefined
| JsNull
| JsNumber (n : Z)
| JsOther (s : string).

(** The template literal [`${n}`] of an integer. *)
Definition numberToString (n : Z) : string :=
  NilZero.string_of_int (Z.to_int n).

(** [typeof v === "number" && v > 0], with the number when it holds. *)
Definition positiveNumber (v : Value) : option Z :=
  match v with
  | JsNumber n => if (0 <? n)%Z then Some n else None
  | _ => None
  end.

End Js.

(** ** Exceptions *)

Inductive Exn : Type :=
| Error (message : string)      (* [new Error(message)] *)
| TypeError (message : string)  (* a method called on [null] *)
| DbError (code : string).      (* a rejection by the mysql2 driver *)

(** ** The part of [sqlstring] used by the resolver *)

Module Mysql.

(** [escapeId] on one character: a backtick is doubled and a dot closes and
    reopens the quoting. *)
Definition escapeIdChar (c : ascii) : string :=
  if Ascii.eqb c "`" then "``"
  else if Ascii.eqb c "." then "`.`"
  else String c EmptyString.

Fixpoint escapeIdBody (s : string) : string :=
  match s with
  | EmptyString => EmptyString
  | String c s' => escapeIdChar c ++ escapeIdBody s'
  end.

(** [mysql.escapeId(identifier)]. *)
Definition escapeId (s : string) : string := "`" ++ escapeIdBody s ++ "`".

End Mysql.

(** ** Arguments of the [events] query *)

Record EventSortInput : Type := {
  field : option string;
  order : option string
}.

Record EventsArgs : Type := {
  startDate : option string;
  endDate : option string;
  dayOfWeek : option string;
  timeOfDayBefore : option string;
  timeOfDayAfter : option string;
  tags : option (list (option string));
  titleContains : option string;
  venueContains : option string;
  sort : option EventSortInput;
  limit : Js.Value;
  offset : Js.Value
}.

(** ** Construction of the statement (lines 89 to 156 of the resolver)

    The resolver keeps two local variables, the text [query] and the array
    [params]; every [if] block extends both. A block is a function of that
    pair which may throw. *)

Record QueryState : Type := {
  query : string;
  params : list string
}.

Definition Step : Type := QueryState -> Exn + QueryState.

(** [query += text]. *)
Definition appendQuery (text : string) (st : QueryState) : QueryState :=
  {| query := query st ++ text; params := params st |}.

(** [params.push(...values)]. *)
Definition pushParams (values : list string) (st : QueryState) : QueryState :=
  {| query := query st; params := params st ++ values |}.

(** [if (v) { query += text; params.push(value(v)); }] *)
Definition whenTruthy (v : option string) (text : string)
    (value : string -> string) : Step :=
  fun st =>
    match v with
    | Some s =>
        if Js.truthy v
        then inr (pushParams [value s] (appendQuery text st))
        else inr st
    | None => inr st
    end.

Definition initialQuery : QueryState :=
  {| query := "SELECT * FROM events WHERE 1=1"; params := [] |}.

Definition likePattern (s : string) : string := "%" ++ s ++ "%".

Definition stepTitleContains (a : EventsArgs) : Step :=
  whenTruthy (titleContains a) " AND title LIKE ?" likePattern.

Definition stepStartDate (a : EventsArgs) : Step :=
  whenTruthy (startDate a) " AND DATE(date_time) >= ?" (fun s => s).

Definition stepEndDate (a : EventsArgs) : Step :=
  whenTruthy (endDate a) " AND DATE(date_time) <= ?" (fun s => s).

Definition stepDayOfWeek (a : EventsArgs) : Step :=
  whenTruthy (dayOfWeek a) " AND DAYNAME(date_time) = ?" (fun s => s).

Definition stepTimeOfDayBefore (a : EventsArgs) : Step :=
  whenTruthy (timeOfDayBefore a) " AND TIME(date_time) <= ?" (fun s => s).

Definition stepTimeOfDayAfter (a : EventsArgs) : Step :=
  whenTruthy (timeOfDayAfter a) " AND TIME(date_time) >= ?" (fun s => s).

Definition stepVenueContains (a : EventsArgs) : Step :=
  whenTruthy (venueContains a) " AND venue LIKE ?" likePattern.

Definition tagCondition : string := "FIND_IN_SET(LOWER(?), LOWER(tags)) > 0".

(** [tags.map((tag) => tag.trim().toLowerCase())]; a [null] element makes
    [tag.trim] throw. *)
Fixpoint normalizeTags (l : list (option string)) : Exn + list string :=
  match l with
  | [] => inr []
  | None :: _ => inl (TypeError "Cannot read properties of null (reading 'trim')")
  | Some tag :: l' =>
      match normalizeTags l' with
      | inl e => inl e
      | inr r => inr (Js.toLowerCase (Js.trim tag) :: r)
      end
  end.

Definition tagConditions {A : Type} (l : list A) : string :=
  Js.join " OR " (map (fun _ => tagCondition) l).

(** [if (tags && tags.length > 0) { ... }]: the text is appended before the
    parameters are computed. *)
Definition stepTags (a : EventsArgs) : Step :=
  fun st =>
    match tags a with
    | Some (t :: l) =>
        let st1 := appendQuery (" AND (" ++ tagConditions (t :: l) ++ ")") st in
        match normalizeTags (t :: l) with
        | inl e => inl e
        | inr ps => inr (pushParams ps st1)
        end
    | _ => inr st
    end.

Definition validSortFields : list string := ["date_time"].

(** [sort.order && sort.order.toUpperCase() === "DESC" ? "DESC" : "ASC"]. *)
Definition sortOrder (o : option string) : string :=
  match o with
  | Some s => if Js.truthy o && String.eqb (Js.toUpperCase s) "DESC"
              then "DESC" else "ASC"
  | None => "ASC"
  end.

(** [if (sort && sort.field) { ... }]. *)
Definition stepSort (a : EventsArgs) : Step :=
  fun st =>
    match sort a with
    | Some srt =>
        match field srt with
        | Some f =>
            if Js.truthy (field srt) then
              if negb (Js.includes validSortFields f)
              then inl (Error "Invalid sort field")
              else inr (appendQuery (" ORDER BY " ++ Mysql.escapeId f ++ " "
                                       ++ sortOrder (order srt)) st)
            else inr st
        | None => inr st
        end
    | None => inr st
    end.

Definition stepLimit (a : EventsArgs) : Step :=
  fun st =>
    match Js.positiveNumber (limit a) with
    | Some n => inr (pushParams [Js.numberToString n] (appendQuery " LIMIT ?" st))
    | None => inr st
    end.

Definition stepOffset (a : EventsArgs) : Step :=
  fun st =>
    match Js.positiveNumber (offset a) with
    | Some n => inr (pushParams [Js.numberToString n] (appendQuery " OFFSET ?" st))
    | None => inr st
    end.

(** The blocks in the order of the source. *)
Definition eventsSteps (a : EventsArgs) : list Step :=
  [ stepTitleContains a; stepStartDate a; stepEndDate a; stepDayOfWeek a;
    stepTimeOfDayBefore a; stepTimeOfDayAfter a; stepVenueContains a;
    stepTags a; stepSort a; stepLimit a; stepOffset a ].

(** Running blocks one after the other; the first exception ends the run. *)
Fixpoint runSteps (steps : list Step) (st : QueryState) : Exn + QueryState :=
  match steps with
  | [] => inr st
  | step :: rest =>
      match step st with
      | inl e => inl e
      | inr st' => runSteps rest st'
      end
  end.

Definition buildQuery (a : EventsArgs) : Exn + QueryState :=
  runSteps (eventsSteps a) initialQuery.

(** ** Rows, the server and the connections *)

Module Event.

(** A row of the table [events] as the driver returns it; [None] is SQL
    [NULL] (or a column that the statement did not select). *)
Record t : Type := {
  title : option string;
  date_time : option string;
  venue : option string;
  link : option string;
  tags : option string;
  last_updated : option string
}.

End Event.

(** The GraphQL type [Venue]. *)
Record Venue : Type := { venue : option string }.

(** What the server does: it accepts the connection or refuses it with an
    error, and it answers a statement with rows or with an error. *)
Record Backend : Type := {
  connectOutcome : option Exn;
  answer : string -> list string -> Exn + list Event.t
}.

Definition Connection : Type := nat.

Inductive DbEvent : Type :=
| Refused
| Opened (c : Connection)
| Executed (c : Connection) (statement : string) (values : list string)
| Closed (c : Connection).

(** The connections of the process: the next handle, the handles that are
    open, and everything that happened, oldest first. *)
Record World : Type := {
  nextConnection : Connection;
  openConnections : list Connection;
  log : list DbEvent
}.

Definition record (ev : DbEvent) (w : World) : World :=
  {| nextConnection := nextConnection w;
     openConnections := openConnections w;
     log := log w ++ [ev] |}.

(** An [async] function: it runs on the state of the connections and ends
    with a value or a thrown exception. *)
Definition Async (A : Type) : Type := World -> (Exn + A) * World.

Definition resolve {A : Type} (a : A) : Async A := fun w => (inr a, w).

Definition reject {A : Type} (e : Exn) : Async A := fun w => (inl e, w).

Definition bind {A B : Type} (m : Async A) (k : A -> Async B) : Async B :=
  fun w =>
    match m w with
    | (inl e, w') => (inl e, w')
    | (inr a, w') => k a w'
    end.

(** A computation without effects that may throw. *)
Definition lift {A : Type} (r : Exn + A) : Async A := fun w => (r, w).

Declare Scope async_scope.
Delimit Scope async_scope with async.
Notation "x <- m ;; k" := (bind m (fun x => k))
  (at level 61, m at next level, right associativity) : async_scope.

(** [try { body } catch (error) { handler(error) } finally { cleanup }]: the
    handler runs when the body throws, the cleanup runs in every case, and an
    exception of the cleanup replaces the outcome. *)
Definition tryCatchFinally {A : Type} (body : Async A)
    (handler : Exn -> Async A) (cleanup : Async unit) : Async A :=
  fun w =>
    let '(r1, w1) := body w in
    let '(r2, w2) := match r1 with
                     | inl e => handler e w1
                     | inr a => (inr a, w1)
                     end in
    let '(r3, w3) := cleanup w2 in
    match r3 with
    | inl e => (inl e, w3)
    | inr _ => (r2, w3)
    end.

(** [mysql.createConnection(...)]. *)
Definition connectToDatabase (db : Backend) : Async Connection :=
  fun w =>
    match connectOutcome db with
    | Some e => (inl e, record Refused w)
    | None =>
        let c := nextConnection w in
        (inr c, {| nextConnection := S c;
                   openConnections := c :: openConnections w;
                   log := log w ++ [Opened c] |})
    end.

(** [connection.execute(statement, values)]. *)
Definition execute (db : Backend) (c : Connection) (statement : string)
    (values : list string) : Async (list Event.t) :=
  fun w => (answer db statement values, record (Executed c statement values) w).

(** [connection.end()]. *)
Definition connectionEnd (c : Connection) : Async unit :=
  fun w =>
    (inr tt, {| nextConnection := nextConnection w;
                openConnections := filter (fun c' => negb (Nat.eqb c' c))
                                          (openConnections w);
                log := log w ++ [Closed c] |}).

(** ** The resolvers *)

Section Resolvers.

Variable db : Backend.

Local Open Scope async_scope.

Definition events (a : EventsArgs) : Async (list Event.t) :=
  connection <- connectToDatabase db ;;
  tryCatchFinally
    (st <- lift (buildQuery a) ;;
     rows <- execute db connection (query st) (params st) ;;
     resolve rows)
    (fun error => reject (Error "Failed to fetch events"))
    (connectionEnd connection).

(** [row.tags.split(",").map((tag) => tag.trim().toLowerCase())]; a [NULL]
    column makes [split] throw. *)
Definition rowTags (row : Event.t) : Exn + list string :=
  match Event.tags row with
  | None => inl (TypeError "Cannot read properties of null (reading 'split')")
  | Some s => inr (map (fun tag => Js.toLowerCase (Js.trim tag)) (Js.splitComma s))
  end.

(** [rows.flatMap(...)]. *)
Fixpoint allTags (rows : list Event.t) : Exn + list string :=
  match rows with
  | [] => inr []
  | row :: rows' =>
      match rowTags row with
      | inl e => inl e
      | inr ts =>
          match allTags rows' with
          | inl e => inl e
          | inr rest => inr (ts ++ rest)%list
          end
      end
  end.

Definition uniqueTags : Async (list string) :=
  connection <- connectToDatabase db ;;
  tryCatchFinally
    (rows <- execute db connection "SELECT tags FROM events" [] ;;
     tagList <- lift (allTags rows) ;;
     resolve (Js.unique tagList))
    (fun error => reject (Error "Failed to fetch unique tags"))
    (connectionEnd connection).

Definition distinctVenues : Async (list Venue) :=
  connection <- connectToDatabase db ;;
  tryCatchFinally
    (rows <- execute db connection "SELECT DISTINCT venue FROM events" [] ;;
     resolve (map (fun row => {| venue := Event.venue row |}) rows))
    (fun error => reject (Error "Failed to fetch distinct venues"))
    (connectionEnd connection).

Definition lastUpdated : Async (option string) :=
  connection <- connectToDatabase db ;;
  tryCatchFinally
    (rows <- execute db connection
               "SELECT MAX(last_updated) AS last_updated FROM events" [] ;;
     match rows with
     | row :: _ => resolve (Event.last_updated row)
     | [] => resolve None
     end)
    (fun error => reject (Error "Failed to fetch last_updated"))
    (connectionEnd connection).

End Resolvers.

(** ** The statement as MySQL reads it

    The resolver only produces text; what a row must satisfy is decided by the
    server. This module gives the reading of the produced text that the MySQL
    reference manual prescribes: three-valued logic for [AND] and [OR],
    positional binding of the [?] placeholders, and the functions [LOWER] and
    [FIND_IN_SET] of the tag condition. *)

Module Sql.

(** A truth value of SQL: [None] is [NULL] (unknown). *)
Definition and3 (x y : option bool) : option bool :=
  match x, y with
  | Some false, _ => Some false
  | _, Some false => Some false
  | Some true, Some true => Some true
  | _, _ => None
  end.

Definition or3 (x y : option bool) : option bool :=
  match x, y with
  | Some true, _ => Some true
  | _, Some true => Some true
  | Some false, Some false => Some false
  | _, _ => None
  end.

(** [LOWER(s)] on the letters [A] to [Z]. The function of the server follows
    the character set of the column, so this is [LOWER] on ASCII strings; the
    properties below keep [LOWER] on both sides of the comparison and use
    nothing else of it, except where they are stated of ASCII strings. *)
Definition LOWER (s : string) : string := Js.toLowerCase s.

(** Does the element that starts at the head of [s] and runs to the next
    comma (or to the end) equal [needle]? *)
Fixpoint elementIs (needle s : string) : bool :=
  match needle, s with
  | EmptyString, EmptyString => true
  | EmptyString, String c _ => Ascii.eqb c ","
  | String _ _, EmptyString => false
  | String n needle', String c s' =>
      negb (Ascii.eqb c ",") && Ascii.eqb n c && elementIs needle' s'
  end.

(** The scan of [FIND_IN_SET]: [position] is the number of the element the
    scan is in, [atStart] tells whether [s] starts that element. *)
Fixpoint findFrom (needle : string) (position : nat) (atStart : bool)
    (s : string) : nat :=
  if atStart && elementIs needle s then position
  else match s with
       | EmptyString => 0
       | String c s' =>
           if Ascii.eqb c ","
           then findFrom needle (S position) true s'
           else findFrom needle position false s'
       end.

(** [FIND_IN_SET(needle, strlist)]: the position, from 1, of [needle] among
    the comma-separated elements of [strlist]; 0 when it is not among them
    or when [strlist] is the empty string. *)
Definition FIND_IN_SET (needle strlist : string) : nat :=
  match strlist with
  | EmptyString => 0
  | _ => findFrom needle 1 true strlist
  end.

(** The elements of a string list: the empty string has none. *)
Definition elements (strlist : string) : list string :=
  match strlist with
  | EmptyString => []
  | _ => Js.splitComma strlist
  end.

(** The conditions that the resolver can append, each with one placeholder. *)
Inductive Predicate : Type :=
| TitleLike | DateFrom | DateTo | DayNameIs | TimeTo | TimeFrom | VenueLike
| TagInSet.

Definition predicateText (p : Predicate) : string :=
  match p with
  | TitleLike => "title LIKE ?"
  | DateFrom => "DATE(date_time) >= ?"
  | DateTo => "DATE(date_time) <= ?"
  | DayNameIs => "DAYNAME(date_time) = ?"
  | TimeTo => "TIME(date_time) <= ?"
  | TimeFrom => "TIME(date_time) >= ?"
  | VenueLike => "venue LIKE ?"
  | TagInSet => "FIND_IN_SET(LOWER(?), LOWER(tags)) > 0"
  end.

(** A search condition built from them. *)
Inductive Cond : Type :=
| CTrue                       (* [1=1] *)
| CPred (p : Predicate)
| CAnd (l r : Cond)
| COr (l r : Cond)
| CParen (c : Cond).

Fixpoint render (c : Cond) : string :=
  match c with
  | CTrue => "1=1"
  | CPred p => predicateText p
  | CAnd l r => render l ++ " AND " ++ render r
  | COr l r => render l ++ " OR " ++ render r
  | CParen c' => "(" ++ render c' ++ ")"
  end.

(** The number of placeholders of a condition. *)
Fixpoint arity (c : Cond) : nat :=
  match c with
  | CTrue => 0
  | CPred _ => 1
  | CAnd l r | COr l r => arity l + arity r
  | CParen c' => arity c'
  end.

(** [FIND_IN_SET(LOWER(?), LOWER(tags)) > 0] on a row; [NULL] when the
    column is [NULL]. *)
Definition tagInSet (value : string) (row : Event.t) : option bool :=
  match Event.tags row with
  | None => None
  | Some stored => Some (0 <? FIND_IN_SET (LOWER value) (LOWER stored))%nat
  end.

Section Reading.

(** The comparisons on the title, the venue and the date are the
    server's; nothing here depends on what they are. *)
Variable columnTest : Predicate -> string -> Event.t -> option bool.

Definition holds (p : Predicate) (value : string) (row : Event.t)
    : option bool :=
  match p with
  | TagInSet => tagInSet value row
  | _ => columnTest p value row
  end.

(** The value of a condition on a row; the placeholders take the values
    from left to right, and the values that remain are returned. *)
Fixpoint eval (c : Cond) (values : list string) (row : Event.t)
    : option bool * list string :=
  match c with
  | CTrue => (Some true, values)
  | CPred p =>
      match values with
      | v :: rest => (holds p v row, rest)
      | [] => (None, [])
      end
  | CAnd l r =>
      let '(x, rest) := eval l values row in
      let '(y, rest') := eval r rest row in
      (and3 x y, rest')
  | COr l r =>
      let '(x, rest) := eval l values row in
      let '(y, rest') := eval r rest row in
      (or3 x y, rest')
  | CParen c' => eval c' values row
  end.

(** A row is selected when the condition is true on it. *)
Definition selects (c : Cond) (values : list string) (row : Event.t) : Prop :=
  fst (eval c values row) = Some true.

End Reading.

(** [c1 AND c2 AND ...] after a first condition. *)
Definition conjunction (first : Cond) (cs : list Cond) : Cond :=
  fold_left CAnd cs first.

(** [c OR c1 OR c2 ...]. *)
Fixpoint disjunction (c : Cond) (cs : list Cond) : Cond :=
  match cs with
  | [] => c
  | c' :: cs' => COr c (disjunction c' cs')
  end.

End Sql.

(** ** Measures on the text of a statement *)


Fixpoint revString (s : string) : string :=
  match s with
  | EmptyString => EmptyString
  | String c s' => revString s' ++ String c EmptyString
  end.

(** [s] starts with [p]. *)
Fixpoint startsWith (s p : string) {struct p} : bool :=
  match p, s with
  | EmptyString, _ => true
  | String a p', String b s' => Ascii.eqb a b && startsWith s' p'
  | String _ _, EmptyString => false
  end.

(** [s] ends with [suffix]. *)
Definition endsWith (s suffix : string) : bool :=
  startsWith (revString s) (revString suffix).

(** [s] without the prefix [p], when it starts with it. *)
Fixpoint dropPrefix (p s : string) : option string :=
  match p, s with
  | EmptyString, _ => Some s
  | String a p', String b s' => if Ascii.eqb a b then dropPrefix p' s' else None
  | String _ _, EmptyString => None
  end.

(** [s] without [suffix] when it ends with it, reversed in both cases. *)
Definition dropSuffixRev (suffix : string) (reversed : string) : string :=
  match dropPrefix (revString suffix) reversed with
  | Some r => r
  | None => reversed
  end.

Inductive Direction : Type := Asc | Desc.

Definition directionText (d : Direction) : string :=
  match d with Asc => "ASC" | Desc => "DESC" end.

(** The [ORDER BY] clause of a statement, read from its end as the grammar of
    [SELECT] has it: the clause comes last but for [LIMIT ?] and [OFFSET ?]. *)
Definition statementOrder (statement : string) : option Direction :=
  let r := dropSuffixRev " LIMIT ?" (dropSuffixRev " OFFSET ?" (revString statement)) in
  if startsWith r (revString " ORDER BY `date_time` ASC") then Some Asc
  else if startsWith r (revString " ORDER BY `date_time` DESC") then Some Desc
  else None.

(** In the grammar of [SELECT], [OFFSET] is only read after [LIMIT]: a
    statement that ends with [OFFSET ?] not preceded by [LIMIT ?] is not a
    statement. *)
Definition offsetWithoutLimit (statement : string) : bool :=
  endsWith statement " OFFSET ?" && negb (endsWith statement " LIMIT ? OFFSET ?").


(** ** What the server is expected to do *)

Section Ordering.

(** The order of the server on the values of [date_time]. *)
Variable dateLe : option string -> option string -> bool.




End Ordering.

(** A server that refuses [OFFSET] without [LIMIT]. *)
Definition refusesOffsetWithoutLimit (db : Backend) : Prop :=
  forall statement values,
    offsetWithoutLimit statement = true ->
    exists e, answer db statement values = inl e.

(** A server that accepts the connection and answers with [ans]. *)
Definition reachable (ans : string -> list string -> Exn + list Event.t) : Backend :=
  {| connectOutcome := None; answer := ans |}.

(** ** The request as the specification describes it *)

Definition withLimit (v : Js.Value) (a : EventsArgs) : EventsArgs :=
  {| startDate := startDate a; endDate := endDate a; dayOfWeek := dayOfWeek a;
     timeOfDayBefore := timeOfDayBefore a; timeOfDayAfter := timeOfDayAfter a;
     tags := tags a; titleContains := titleContains a;
     venueContains := venueContains a; sort := sort a;
     limit := v; offset := offset a |}.

Definition withOffset (v : Js.Value) (a : EventsArgs) : EventsArgs :=
  {| startDate := startDate a; endDate := endDate a; dayOfWeek := dayOfWeek a;
     timeOfDayBefore := timeOfDayBefore a; timeOfDayAfter := timeOfDayAfter a;
     tags := tags a; titleContains := titleContains a;
     venueContains := venueContains a; sort := sort a;
     limit := limit a; offset := v |}.

(** A condition with the values of its placeholders. *)
Definition Contribution : Type := (Sql.Cond * list string)%type.

(** What a string argument contributes when it is present and not empty. *)
Definition contribution (v : option string) (p : Sql.Predicate)
    (value : string -> string) : list Contribution :=
  match v with
  | Some (String c s) => [(Sql.CPred p, [value (String c s)])]
  | _ => []
  end.

(** The requested tags, trimmed and in lower case. *)
Fixpoint requestedTags (l : list (option string)) : list string :=
  match l with
  | [] => []
  | Some tag :: l' => Js.toLowerCase (Js.trim tag) :: requestedTags l'
  | None :: l' => requestedTags l'
  end.

(** One condition per element of [l], joined by [OR], in parentheses. *)
Definition tagGroup {A : Type} (t : A) (l : list A) : Sql.Cond :=
  Sql.CParen (Sql.disjunction (Sql.CPred Sql.TagInSet)
                (map (fun _ => Sql.CPred Sql.TagInSet) l)).

Definition tagContribution (ts : option (list (option string))) : list Contribution :=
  match ts with
  | Some (t :: l) => [(tagGroup t l, requestedTags (t :: l))]
  | _ => []
  end.

(** The conditions contributed by the string arguments, in the order of the
    text. *)
Definition stringContributions (a : EventsArgs) : list Contribution :=
  (contribution (titleContains a) Sql.TitleLike likePattern
   ++ contribution (startDate a) Sql.DateFrom (fun s => s)
   ++ contribution (endDate a) Sql.DateTo (fun s => s)
   ++ contribution (dayOfWeek a) Sql.DayNameIs (fun s => s)
   ++ contribution (timeOfDayBefore a) Sql.TimeTo (fun s => s)
   ++ contribution (timeOfDayAfter a) Sql.TimeFrom (fun s => s)
   ++ contribution (venueContains a) Sql.VenueLike likePattern)%list.

(** All the conditions contributed by the arguments. *)
Definition contributed (a : EventsArgs) : list Contribution :=
  (stringContributions a ++ tagContribution (tags a))%list.

(** A contribution has as many values as its condition has placeholders. *)
Definition parameterized (c : Contribution) : Prop :=
  Sql.arity (fst c) = length (snd c).

(** The conditions that [events] contributes are a comparison with a
    placeholder or a group in parentheses. *)
Definition endsLikeCondition (c : Contribution) : Prop :=
  (exists p, fst c = Sql.CPred p) \/ (exists c', fst c = Sql.CParen c').

(** The search condition of the request. *)
Definition whereCondition (a : EventsArgs) : Sql.Cond :=
  Sql.conjunction Sql.CTrue (map fst (contributed a)).

Definition whereValues (a : EventsArgs) : list string :=
  concat (map snd (contributed a)).

Definition count (b : bool) : nat := if b then 1 else 0.

(** The number of filter arguments that are present and not empty. *)
Definition nonEmptyFilters (a : EventsArgs) : nat :=
  count (Js.truthy (titleContains a)) + count (Js.truthy (startDate a))
  + count (Js.truthy (endDate a)) + count (Js.truthy (dayOfWeek a))
  + count (Js.truthy (timeOfDayBefore a)) + count (Js.truthy (timeOfDayAfter a))
  + count (Js.truthy (venueContains a))
  + match tags a with Some (_ :: _) => 1 | _ => 0 end.

(** The direction that the request asks for, by the test of the code:
    descending when the order in upper case is [DESC], ascending otherwise. *)
Definition requestedDirection (o : option string) : Direction :=
  match o with
  | Some s => if String.eqb (Js.toUpperCase s) "DESC" then Desc else Asc
  | None => Asc
  end.



Definition orderClause (a : EventsArgs) : string :=
  match sort a with
  | Some srt =>
      if Js.truthy (field srt)
      then " ORDER BY `date_time` " ++ directionText (requestedDirection (order srt))
      else ""
  | None => ""
  end.

Definition limitClause (a : EventsArgs) : string :=
  match Js.positiveNumber (limit a) with Some _ => " LIMIT ?" | None => "" end.

Definition offsetClause (a : EventsArgs) : string :=
  match Js.positiveNumber (offset a) with Some _ => " OFFSET ?" | None => "" end.

Definition pagingValue (v : Js.Value) : list string :=
  match Js.positiveNumber v with Some n => [Js.numberToString n] | None => [] end.

(** The whole statement of a request, clause after clause. *)
Definition statementOf (a : EventsArgs) : string :=
  "SELECT * FROM events WHERE " ++ Sql.render (whereCondition a)
  ++ orderClause a ++ limitClause a ++ offsetClause a.

Definition valuesOf (a : EventsArgs) : list string :=
  (whereValues a ++ pagingValue (limit a) ++ pagingValue (offset a))%list.

(** The requests for which a statement is built: no requested tag is [null]
    and the sort field, when there is one, is allowed. *)
Definition tagsUsable (a : EventsArgs) : bool :=
  match tags a with
  | Some l => forallb (fun t => match t with Some _ => true | None => false end) l
  | None => true
  end.

Definition sortUsable (a : EventsArgs) : bool :=
  match sort a with
  | Some srt =>
      match field srt with
      | Some f => negb (Js.truthy (field srt)) || Js.includes validSortFields f
      | None => true
      end
  | None => true
  end.

Definition buildable (a : EventsArgs) : bool := tagsUsable a && sortUsable a.


(** ** Contributions as text *)

(** The text that a contribution adds to the statement. *)
Definition clauseOf (c : Contribution) : string := " AND " ++ Sql.render (fst c).

Fixpoint clausesText (cs : list Contribution) : string :=
  match cs with
  | [] => ""
  | c :: cs' => clauseOf c ++ clausesText cs'
  end.

(** Appending contributions to the statement under construction. *)
Definition extend (cs : list Contribution) (st : QueryState) : QueryState :=
  fold_left (fun st' c => pushParams (snd c) (appendQuery (clauseOf c) st')) cs st.

(** ** The states of the connections along a request *)

(** The state once the connection [nextConnection w] is established. *)
Definition connected (w : World) : World :=
  {| nextConnection := S (nextConnection w);
     openConnections := nextConnection w :: openConnections w;
     log := log w ++ [Opened (nextConnection w)] |}.

(** The state once connection [c] is ended. *)
Definition ended (c : Connection) (w : World) : World :=
  snd (connectionEnd c w).

(** The outcome of a [try] block under the [catch] of an operation: any
    exception becomes the error of the operation. *)
Definition caught {A : Type} (message : string) (r : Exn + A) : Exn + A :=
  match r with
  | inl _ => inl (Error message)
  | inr x => inr x
  end.

(** A request that runs one statement on a fresh connection: the outcome of
    the request and the state it leaves. *)
Definition oneStatement {A : Type} (db : Backend) (message statement : string)
    (values : list string) (process : list Event.t -> Exn + A) (w : World)
    : (Exn + A) * World :=
  match connectOutcome db with
  | Some e => (inl e, record Refused w)
  | None =>
      let c := nextConnection w in
      (caught message
         (match answer db statement values with
          | inl e => inl e
          | inr rows => process rows
          end),
       ended c (record (Executed c statement values) (connected w)))
  end.

(** The connection acquired in state [w] has been used and released in state
    [w']: the log shows its opening, then only statements run on it, then its
    end; it is no longer open, and no other connection was touched. *)
Definition releasesConnection (w w' : World) : Prop :=
  let c := nextConnection w in
  exists used,
    log w' = (log w ++ Opened c :: used ++ [Closed c])%list
    /\ Forall (fun ev => exists statement values, ev = Executed c statement values) used
    /\ ~ In c (openConnections w')
    /\ (forall c', c' <> c -> In c' (openConnections w') <-> In c' (openConnections w)).

(** A request leaves the connections as it found them: either the server
    refused the connection and none was opened, or the connection of the
    request was released. *)
Definition connectionScoped (db : Backend) (w w' : World) : Prop :=
  match connectOutcome db with
  | Some _ => w' = record Refused w
  | None => releasesConnection w w'
  end.

(** ** Two readings of the specification that the code does not follow *)

(** The claim that every field that is present, empty or not, contributes a
    condition: the conditions of the string arguments under that reading. *)
Definition presentContribution (v : option string) (p : Sql.Predicate) : list Sql.Cond :=
  match v with
  | Some _ => [Sql.CPred p]
  | None => []
  end.

Definition whereOfPresentFields (a : EventsArgs) : Sql.Cond :=
  Sql.conjunction Sql.CTrue
    (presentContribution (titleContains a) Sql.TitleLike
     ++ presentContribution (startDate a) Sql.DateFrom
     ++ presentContribution (endDate a) Sql.DateTo
     ++ presentContribution (dayOfWeek a) Sql.DayNameIs
     ++ presentContribution (timeOfDayBefore a) Sql.TimeTo
     ++ presentContribution (timeOfDayAfter a) Sql.TimeFrom
     ++ presentContribution (venueContains a) Sql.VenueLike
     ++ map fst (tagContribution (tags a)))%list.

Definition EveryPresentFieldContributes : Prop :=
  forall a st,
    buildQuery a = inr st ->
    startsWith (query st)
      ("SELECT * FROM events WHERE " ++ Sql.render (whereOfPresentFields a)) = true.


(** ** Sample requests, rows and servers *)

Definition world0 : World :=
  {| nextConnection := 0; openConnections := []; log := [] |}.

Definition noArgs : EventsArgs :=
  {| startDate := None; endDate := None; dayOfWeek := None;
     timeOfDayBefore := None; timeOfDayAfter := None; tags := None;
     titleContains := None; venueContains := None; sort := None;
     limit := Js.JsUndefined; offset := Js.JsUndefined |}.

Definition withSort (s : EventSortInput) (a : EventsArgs) : EventsArgs :=
  {| startDate := startDate a; endDate := endDate a; dayOfWeek := dayOfWeek a;
     timeOfDayBefore := timeOfDayBefore a; timeOfDayAfter := timeOfDayAfter a;
     tags := tags a; titleContains := titleContains a;
     venueContains := venueContains a; sort := Some s;
     limit := limit a; offset := offset a |}.

Definition withTags (l : list (option string)) (a : EventsArgs) : EventsArgs :=
  {| startDate := startDate a; endDate := endDate a; dayOfWeek := dayOfWeek a;
     timeOfDayBefore := timeOfDayBefore a; timeOfDayAfter := timeOfDayAfter a;
     tags := Some l; titleContains := titleContains a;
     venueContains := venueContains a; sort := sort a;
     limit := limit a; offset := offset a |}.

Definition withTitle (s : string) (a : EventsArgs) : EventsArgs :=
  {| startDate := startDate a; endDate := endDate a; dayOfWeek := dayOfWeek a;
     timeOfDayBefore := timeOfDayBefore a; timeOfDayAfter := timeOfDayAfter a;
     tags := tags a; titleContains := Some s;
     venueContains := venueContains a; sort := sort a;
     limit := limit a; offset := offset a |}.

Definition sortByTitle : EventsArgs :=
  withSort {| field := Some "title"; order := None |} noArgs.

Definition emptyTitle : EventsArgs := withTitle "" noArgs.

Definition jazzOnly : EventsArgs := withTags [Some "jazz"] noArgs.

Definition jazzState : QueryState :=
  {| query := "SELECT * FROM events WHERE 1=1 AND (FIND_IN_SET(LOWER(?), LOWER(tags)) > 0)";
     params := ["jazz"] |}.

(** A request with an offset and no limit. *)
Definition offsetOnly : EventsArgs := withOffset (Js.JsNumber 20) noArgs.

(** A request with most of the arguments. *)
Definition sampleRequest : EventsArgs :=
  {| startDate := Some "2024-05-01"; endDate := None; dayOfWeek := Some "Friday";
     timeOfDayBefore := None; timeOfDayAfter := Some "17:00:00";
     tags := Some [Some " Music "; Some "JAZZ"];
     titleContains := Some "piano"; venueContains := Some "";
     sort := Some {| field := Some "date_time"; order := Some "desc" |};
     limit := Js.JsNumber 10; offset := Js.JsNumber 20 |}.

Definition sampleState : QueryState :=
  {| query := "SELECT * FROM events WHERE 1=1 AND title LIKE ? AND DATE(date_time) >= ? AND DAYNAME(date_time) = ? AND TIME(date_time) >= ? AND (FIND_IN_SET(LOWER(?), LOWER(tags)) > 0 OR FIND_IN_SET(LOWER(?), LOWER(tags)) > 0) ORDER BY `date_time` DESC LIMIT ? OFFSET ?";
     params := ["%piano%"; "2024-05-01"; "Friday"; "17:00:00"; "music"; "jazz";
                "10"; "20"] |}.

Definition rowWith (date tagList : string) : Event.t :=
  {| Event.title := Some "Recital"; Event.date_time := Some date;
     Event.venue := Some "Paul Hall"; Event.link := None;
     Event.tags := Some tagList; Event.last_updated := Some date |}.

Definition spacedRow : Event.t := rowWith "2024-05-02 19:30:00" "music, jazz".

(** The two rows of [twoRows], latest first. *)
Definition latestFirst : list Event.t :=
  [rowWith "2024-05-02 19:30:00" "music, jazz";
   rowWith "2024-05-01 18:00:00" "Piano,Recital"].


(** A server-side comparison that accepts every row. *)
Definition anyRow : Sql.Predicate -> string -> Event.t -> option bool :=
  fun _ _ _ => Some true.

(** A server with two rows that sorts them as the statement asks and refuses
    [OFFSET] without [LIMIT]. *)
Definition twoRows : Backend :=
  {| connectOutcome := None;
     answer := fun statement _ =>
       if offsetWithoutLimit statement then inl (DbError "ER_PARSE_ERROR")
       else match statementOrder statement with
            | Some Desc => inr [rowWith "2024-05-02 19:30:00" "music, jazz";
                                rowWith "2024-05-01 18:00:00" "Piano,Recital"]
            | _ => inr [rowWith "2024-05-01 18:00:00" "Piano,Recital";
                        rowWith "2024-05-02 19:30:00" "music, jazz"]
            end |}.

(** A server that cannot be reached, and one whose statements fail. *)
Definition unreachable : Backend :=
  {| connectOutcome := Some (DbError "ECONNREFUSED");
     answer := fun _ _ => inr [] |}.

Definition failing : Backend :=
  {| connectOutcome := None;
     answer := fun _ _ => inl (DbError "ER_NO_SUCH_TABLE") |}.

(** A server whose table holds [spacedRow] only. *)
Definition spacedTable : Backend :=
  reachable (fun _ _ => inr [spacedRow]).

(** ** What a request determines

    The definitions below describe requests; they are used to state further
    properties of the resolvers. *)

(** The list of tags has a [null] element. *)
Definition hasNullTag (a : EventsArgs) : bool := negb (tagsUsable a).

(** What of a request can show in the text of the statement: which string
    arguments are non-empty, how many tags there are, the direction of the
    sort when the sort field is non-empty, and whether the limit and the
    offset are positive numbers. *)
Record Shape : Type := {
  hasTitle : bool;
  hasStartDate : bool;
  hasEndDate : bool;
  hasDayOfWeek : bool;
  hasTimeBefore : bool;
  hasTimeAfter : bool;
  hasVenue : bool;
  tagCount : nat;
  sortDirection : option Direction;
  hasLimit : bool;
  hasOffset : bool
}.

Definition isPositive (v : Js.Value) : bool :=
  match Js.positiveNumber v with Some _ => true | None => false end.

Definition shape (a : EventsArgs) : Shape :=
  {| hasTitle := Js.truthy (titleContains a);
     hasStartDate := Js.truthy (startDate a);
     hasEndDate := Js.truthy (endDate a);
     hasDayOfWeek := Js.truthy (dayOfWeek a);
     hasTimeBefore := Js.truthy (timeOfDayBefore a);
     hasTimeAfter := Js.truthy (timeOfDayAfter a);
     hasVenue := Js.truthy (venueContains a);
     tagCount := match tags a with Some l => length l | None => 0 end;
     sortDirection :=
       match sort a with
       | Some srt => if Js.truthy (field srt)
                     then Some (requestedDirection (order srt)) else None
       | None => None
       end;
     hasLimit := isPositive (limit a);
     hasOffset := isPositive (offset a) |}.

(** Two requested tags that differ by letter case and by white space around
    them only (or that are both [null]). *)
Definition sameRequestedTag (t1 t2 : option string) : Prop :=
  option_map (fun s => Js.toLowerCase (Js.trim s)) t1
  = option_map (fun s => Js.toLowerCase (Js.trim s)) t2.

(** A string argument, with the empty string taken as absent. *)
Definition nonEmpty (v : option string) : option string :=
  if Js.truthy v then v else None.

(** The request without what the guards of [events] skip: empty strings, an
    empty list of tags, a sort without a field, and a limit or an offset that
    is not a positive number. *)
Definition canonical (a : EventsArgs) : EventsArgs :=
  {| startDate := nonEmpty (startDate a);
     endDate := nonEmpty (endDate a);
     dayOfWeek := nonEmpty (dayOfWeek a);
     timeOfDayBefore := nonEmpty (timeOfDayBefore a);
     timeOfDayAfter := nonEmpty (timeOfDayAfter a);
     tags := match tags a with Some (t :: l) => Some (t :: l) | _ => None end;
     titleContains := nonEmpty (titleContains a);
     venueContains := nonEmpty (venueContains a);
     sort := match sort a with
             | Some srt => if Js.truthy (field srt) then Some srt else None
             | None => None
             end;
     limit := match Js.positiveNumber (limit a) with
              | Some n => Js.JsNumber n
              | None => Js.JsUndefined
              end;
     offset := match Js.positiveNumber (offset a) with
               | Some n => Js.JsNumber n
               | None => Js.JsUndefined
               end |}.

(** Requests for the witnesses. *)
Definition shoutedTags : EventsArgs := withTags [Some " JAZZ "; Some "Piano"] sampleRequest.

Definition plainTags : EventsArgs := withTags [Some "jazz"; Some "piano"] sampleRequest.

Definition otherValues : EventsArgs :=
  {| startDate := Some "1999-12-31"; endDate := None; dayOfWeek := Some "Monday";
     timeOfDayBefore := None; timeOfDayAfter := Some "09:00:00";
     tags := Some [Some "opera"; Some "x' OR 1=1 --"];
     titleContains := Some "'; DROP TABLE events; --"; venueContains := None;
     sort := Some {| field := Some "date_time"; order := Some "DESC" |};
     limit := Js.JsNumber 1; offset := Js.JsNumber 7 |}.

Definition otherState : QueryState :=
  {| query := query sampleState;
     params := ["%'; DROP TABLE events; --%"; "1999-12-31"; "Monday"; "09:00:00";
                "opera"; "x' or 1=1 --"; "1"; "7"] |}.


(** The condition that a flag of the shape stands for. *)
Definition flagCondition (present : bool) (p : Sql.Predicate) : list Sql.Cond :=
  if present then [Sql.CPred p] else [].

Definition shapeConditions (s : Shape) : list Sql.Cond :=
  (flagCondition (hasTitle s) Sql.TitleLike
   ++ flagCondition (hasStartDate s) Sql.DateFrom
   ++ flagCondition (hasEndDate s) Sql.DateTo
   ++ flagCondition (hasDayOfWeek s) Sql.DayNameIs
   ++ flagCondition (hasTimeBefore s) Sql.TimeTo
   ++ flagCondition (hasTimeAfter s) Sql.TimeFrom
   ++ flagCondition (hasVenue s) Sql.VenueLike
   ++ match tagCount s with
      | 0 => []
      | S n => [tagGroup tt (repeat tt n)]
      end)%list.

(** The text of the statement of a shape. *)
Definition shapeStatement (s : Shape) : string :=
  "SELECT * FROM events WHERE "
  ++ Sql.render (Sql.conjunction Sql.CTrue (shapeConditions s))
  ++ match sortDirection s with
     | Some d => " ORDER BY `date_time` " ++ directionText d
     | None => ""
     end
  ++ (if hasLimit s then " LIMIT ?" else "")
  ++ (if hasOffset s then " OFFSET ?" else "").


(** The decimal text of a value of the statement, read back as an integer. *)
Definition readNumber (s : string) : option Z :=
  option_map Z.of_int (NilZero.int_of_string s).

(** The handles that are open are older than the next handle. *)
Definition wellFormed (w : World) : Prop :=
  Forall (fun c => c < nextConnection w) (openConnections w).

(** A server whose table has a row without tags. *)
Definition untaggedRow : Event.t :=
  {| Event.title := Some "Masterclass"; Event.date_time := Some "2024-05-04 10:00:00";
     Event.venue := None; Event.link := None;
     Event.tags := None; Event.last_updated := None |}.

Definition untaggedTable : Backend :=
  reachable (fun _ _ => inr [rowWith "2024-05-01 18:00:00" "Piano,Recital";
                             untaggedRow]).

(** ** The compiled resolvers

    The repository also holds the JavaScript that was compiled from an earlier
    state of [index.ts]: [events] without the arguments [limit] and [offset],
    and [uniqueTags]. *)

Module Dist.

(** The blocks of the compiled [events], in the order of the file. *)
Definition eventsSteps (a : EventsArgs) : list Step :=
  [ stepTitleContains a; stepStartDate a; stepEndDate a; stepDayOfWeek a;
    stepTimeOfDayBefore a; stepTimeOfDayAfter a; stepVenueContains a;
    stepTags a; stepSort a ].

Definition buildQuery (a : EventsArgs) : Exn + QueryState :=
  runSteps (eventsSteps a) initialQuery.

Section Resolvers.

Variable db : Backend.

Local Open Scope async_scope.

Definition events (a : EventsArgs) : Async (list Event.t) :=
  connection <- connectToDatabase db ;;
  tryCatchFinally
    (st <- lift (buildQuery a) ;;
     rows <- execute db connection (query st) (params st) ;;
     resolve rows)
    (fun error => reject (Error "Failed to fetch events"))
    (connectionEnd connection).

Definition uniqueTags : Async (list string) :=
  connection <- connectToDatabase db ;;
  tryCatchFinally
    (rows <- execute db connection "SELECT tags FROM events" [] ;;
     tagList <- lift (allTags rows) ;;
     resolve (Js.unique tagList))
    (fun error => reject (Error "Failed to fetch unique tags"))
    (connectionEnd connection).

End Resolvers.

End Dist.


(** A server whose only row has tags that end with a comma. *)
Definition trailingCommaRow : Event.t := rowWith "2024-05-05 20:00:00" "jazz,".

Definition trailingCommaTable : Backend :=
  reachable (fun _ _ => inr [trailingCommaRow]).


(** A request for the tag [recital], and the statement it builds. *)
Definition recitalOnly : EventsArgs := withTags [Some "recital"] noArgs.

Definition recitalState : QueryState :=
  {| query := "SELECT * FROM events WHERE 1=1 AND (FIND_IN_SET(LOWER(?), LOWER(tags)) > 0)";
     params := ["recital"] |}.

(** * Properties *)

(** ** The definitions on examples *)

Example trim_example : Js.trim "  Chamber Music	 " = "Chamber Music".
Proof. reflexivity. Qed.

Example splitComma_example :
  Js.splitComma "music, jazz,,Piano," = ["music"; " jazz"; ""; "Piano"; ""].
Proof. reflexivity. Qed.

Example unique_example : Js.unique ["jazz"; "piano"; "jazz"; "opera"] = ["jazz"; "piano"; "opera"].
Proof. reflexivity. Qed.

Example escapeId_example : Mysql.escapeId "date_time" = "`date_time`".
Proof. reflexivity. Qed.

Example escapeId_qualified : Mysql.escapeId "a`b.c" = "`a``b`.`c`".
Proof. reflexivity. Qed.

Example FIND_IN_SET_manual : Sql.FIND_IN_SET "b" "a,b,c,d" = 2.
Proof. reflexivity. Qed.

Example FIND_IN_SET_empty_list : Sql.FIND_IN_SET "" "" = 0.
Proof. reflexivity. Qed.

Example FIND_IN_SET_with_comma : Sql.FIND_IN_SET "a,b" "a,b" = 0.
Proof. reflexivity. Qed.

Example buildQuery_sample : buildQuery sampleRequest = inr sampleState.
Proof. reflexivity. Qed.

Example buildQuery_null_tag :
  buildQuery (withTags [Some "jazz"; None] noArgs)
  = inl (TypeError "Cannot read properties of null (reading 'trim')").
Proof. reflexivity. Qed.

Example events_sample :
  events twoRows sampleRequest world0
  = (inr latestFirst,
     {| nextConnection := 1; openConnections := [];
        log := [Opened 0; Executed 0 (query sampleState) (params sampleState);
                Closed 0] |}).
Proof. reflexivity. Qed.

Example uniqueTags_sample :
  fst (uniqueTags twoRows world0) = inr ["piano"; "recital"; "music"; "jazz"].
Proof. reflexivity. Qed.

(** ** Texts *)

Lemma append_assoc (s1 s2 s3 : string) : (s1 ++ s2) ++ s3 = s1 ++ (s2 ++ s3).
Proof.
  induction s1 as [|c s1 IH]; simpl; [reflexivity | now rewrite IH].
Qed.

Lemma append_empty_r (s : string) : s ++ "" = s.
Proof.
  induction s as [|c s IH]; simpl; [reflexivity | now rewrite IH].
Qed.


Lemma revString_append (s1 s2 : string) :
  revString (s1 ++ s2) = revString s2 ++ revString s1.
Proof.
  induction s1 as [|c s1 IH]; simpl.
  - now rewrite append_empty_r.
  - now rewrite IH, append_assoc.
Qed.

Lemma startsWith_append (p s : string) : startsWith (p ++ s) p = true.
Proof.
  induction p as [|c p IH]; simpl; [reflexivity|].
  now rewrite Ascii.eqb_refl.
Qed.

Lemma endsWith_append (s suffix : string) : endsWith (s ++ suffix) suffix = true.
Proof.
  unfold endsWith. rewrite revString_append. apply startsWith_append.
Qed.

(** ** Letter case *)

Lemma lowerChar_idempotent (c : ascii) : Js.lowerChar (Js.lowerChar c) = Js.lowerChar c.
Proof.
  destruct c as [[] [] [] [] [] [] [] []]; reflexivity.
Qed.

Lemma toLowerCase_idempotent (s : string) :
  Js.toLowerCase (Js.toLowerCase s) = Js.toLowerCase s.
Proof.
  induction s as [|c s IH]; simpl; [reflexivity|].
  now rewrite lowerChar_idempotent, IH.
Qed.

Lemma sortOrder_direction (o : option string) :
  sortOrder o = directionText (requestedDirection o).
Proof.
  destruct o as [s|]; [|reflexivity].
  unfold sortOrder, requestedDirection.
  destruct (String.eqb_spec (Js.toUpperCase s) "DESC") as [Hu|Hu].
  - destruct s; [discriminate Hu | reflexivity].
  - now rewrite andb_false_r.
Qed.



(** ** The blocks of the construction *)

Lemma extend_app (cs1 cs2 : list Contribution) (st : QueryState) :
  extend (cs1 ++ cs2) st = extend cs2 (extend cs1 st).
Proof. unfold extend. apply fold_left_app. Qed.

Lemma extend_query (cs : list Contribution) (st : QueryState) :
  query (extend cs st) = query st ++ clausesText cs.
Proof.
  revert st. induction cs as [|c cs IH]; intros st; simpl.
  - now rewrite append_empty_r.
  - change (query (extend cs (pushParams (snd c) (appendQuery (clauseOf c) st)))
            = query st ++ clauseOf c ++ clausesText cs).
    rewrite IH. simpl. now rewrite append_assoc.
Qed.

Lemma extend_params (cs : list Contribution) (st : QueryState) :
  params (extend cs st) = (params st ++ concat (map snd cs))%list.
Proof.
  revert st. induction cs as [|c cs IH]; intros st; simpl.
  - now rewrite app_nil_r.
  - change (params (extend cs (pushParams (snd c) (appendQuery (clauseOf c) st)))
            = (params st ++ snd c ++ concat (map snd cs))%list).
    rewrite IH. simpl. now rewrite app_assoc.
Qed.

Lemma render_conjunction (first : Sql.Cond) (cs : list Contribution) :
  Sql.render (Sql.conjunction first (map fst cs)) = Sql.render first ++ clausesText cs.
Proof.
  revert first. induction cs as [|c cs IH]; intros first; simpl.
  - now rewrite append_empty_r.
  - unfold Sql.conjunction in *. rewrite IH. simpl.
    now rewrite append_assoc.
Qed.

Lemma render_disjunction (c : Sql.Cond) (cs : list Sql.Cond) :
  Sql.render (Sql.disjunction c cs) = Js.join " OR " (map Sql.render (c :: cs)).
Proof.
  revert c. induction cs as [|c' cs IH]; intros c.
  - reflexivity.
  - change (Sql.render c ++ " OR " ++ Sql.render (Sql.disjunction c' cs)
            = Sql.render c ++ " OR " ++ Js.join " OR " (map Sql.render (c' :: cs))).
    now rewrite IH.
Qed.

Lemma whenTruthy_extend (v : option string) (p : Sql.Predicate)
    (value : string -> string) (st : QueryState) :
  whenTruthy v (" AND " ++ Sql.predicateText p) value st
  = inr (extend (contribution v p value) st).
Proof. destruct v as [[|c s]|]; reflexivity. Qed.

Lemma normalizeTags_requested (l : list (option string)) (ps : list string) :
  normalizeTags l = inr ps -> ps = requestedTags l /\ length ps = length l.
Proof.
  revert ps. induction l as [|[tag|] l IH]; intros ps H; simpl in H.
  - injection H as <-. now split.
  - destruct (normalizeTags l) as [e|r]; [discriminate|].
    injection H as <-. destruct (IH r eq_refl) as [-> Hlen].
    simpl. now rewrite Hlen.
  - discriminate.
Qed.

Lemma tagConditions_render {A : Type} (t : A) (l : list A) :
  " AND (" ++ tagConditions (t :: l) ++ ")"
  = clauseOf (tagGroup t l, @nil string).
Proof.
  unfold clauseOf, tagGroup, tagConditions. cbn [fst Sql.render].
  rewrite render_disjunction. cbn [map Sql.render]. rewrite map_map.
  reflexivity.
Qed.

Lemma stepTags_inr (a : EventsArgs) (st st' : QueryState) :
  stepTags a st = inr st' -> st' = extend (tagContribution (tags a)) st.
Proof.
  unfold stepTags. destruct (tags a) as [[|t l]|].
  - now intros [= <-].
  - destruct (normalizeTags (t :: l)) as [e|ps] eqn:Hn; [discriminate|].
    intros [= <-]. apply normalizeTags_requested in Hn as [-> _].
    unfold tagContribution, extend. cbn [fold_left snd].
    do 2 f_equal. exact (tagConditions_render t l).
  - now intros [= <-].
Qed.

Lemma includes_validSortFields (f : string) :
  Js.includes validSortFields f = true <-> f = "date_time".
Proof.
  unfold Js.includes, validSortFields. simpl. rewrite orb_false_r.
  apply String.eqb_eq.
Qed.

Lemma stepSort_inr (a : EventsArgs) (st st' : QueryState) :
  stepSort a st = inr st' ->
  query st' = query st ++ orderClause a /\ params st' = params st.
Proof.
  unfold stepSort, orderClause. destruct (sort a) as [srt|].
  - destruct (field srt) as [f|] eqn:Hf.
    + destruct (Js.truthy (Some f)).
      * destruct (Js.includes validSortFields f) eqn:Hv; [|discriminate].
        apply includes_validSortFields in Hv as ->.
        intros [= <-]. rewrite sortOrder_direction. now split.
      * intros [= <-]. now rewrite append_empty_r.
    + intros [= <-]. simpl. now rewrite append_empty_r.
  - intros [= <-]. now rewrite append_empty_r.
Qed.

Lemma stepLimit_eq (a : EventsArgs) (st : QueryState) :
  exists st', stepLimit a st = inr st' /\
    query st' = query st ++ limitClause a /\
    params st' = (params st ++ pagingValue (limit a))%list.
Proof.
  unfold stepLimit, limitClause, pagingValue.
  destruct (Js.positiveNumber (limit a)) as [n|]; eexists; split;
    try reflexivity; simpl; now rewrite ?append_empty_r, ?app_nil_r.
Qed.

Lemma stepOffset_eq (a : EventsArgs) (st : QueryState) :
  exists st', stepOffset a st = inr st' /\
    query st' = query st ++ offsetClause a /\
    params st' = (params st ++ pagingValue (offset a))%list.
Proof.
  unfold stepOffset, offsetClause, pagingValue.
  destruct (Js.positiveNumber (offset a)) as [n|]; eexists; split;
    try reflexivity; simpl; now rewrite ?append_empty_r, ?app_nil_r.
Qed.

(** ** The statement that is built *)

Lemma runSteps_cons_inr (step : Step) (rest : list Step) (st st1 : QueryState) :
  step st = inr st1 -> runSteps (step :: rest) st = runSteps rest st1.
Proof. intros H. simpl. now rewrite H. Qed.

Lemma filterSteps_run (a : EventsArgs) (rest : list Step) :
  runSteps (stepTitleContains a :: stepStartDate a :: stepEndDate a
            :: stepDayOfWeek a :: stepTimeOfDayBefore a :: stepTimeOfDayAfter a
            :: stepVenueContains a :: rest) initialQuery
  = runSteps rest (extend (stringContributions a) initialQuery).
Proof.
  rewrite (runSteps_cons_inr _ _ _ _
             (whenTruthy_extend (titleContains a) Sql.TitleLike likePattern _)).
  rewrite (runSteps_cons_inr _ _ _ _
             (whenTruthy_extend (startDate a) Sql.DateFrom (fun s => s) _)).
  rewrite (runSteps_cons_inr _ _ _ _
             (whenTruthy_extend (endDate a) Sql.DateTo (fun s => s) _)).
  rewrite (runSteps_cons_inr _ _ _ _
             (whenTruthy_extend (dayOfWeek a) Sql.DayNameIs (fun s => s) _)).
  rewrite (runSteps_cons_inr _ _ _ _
             (whenTruthy_extend (timeOfDayBefore a) Sql.TimeTo (fun s => s) _)).
  rewrite (runSteps_cons_inr _ _ _ _
             (whenTruthy_extend (timeOfDayAfter a) Sql.TimeFrom (fun s => s) _)).
  rewrite (runSteps_cons_inr _ _ _ _
             (whenTruthy_extend (venueContains a) Sql.VenueLike likePattern _)).
  rewrite <- !extend_app. rewrite <- ?app_assoc.
  reflexivity.
Qed.

Lemma buildQuery_tail (a : EventsArgs) :
  buildQuery a
  = runSteps [stepTags a; stepSort a; stepLimit a; stepOffset a]
      (extend (stringContributions a) initialQuery).
Proof. unfold buildQuery, eventsSteps. apply filterSteps_run. Qed.

(** When a statement is built, it is the statement of the request, clause
    after clause, with the values in the order of the placeholders. *)
Lemma buildQuery_inr (a : EventsArgs) (st : QueryState) :
  buildQuery a = inr st ->
  query st = statementOf a /\ params st = valuesOf a.
Proof.
  rewrite buildQuery_tail. cbn [runSteps].
  destruct (stepTags a _) as [e|st1] eqn:H1; [discriminate|].
  destruct (stepSort a st1) as [e|st2] eqn:H2; [discriminate|].
  destruct (stepLimit_eq a st2) as (st3 & H3 & Hq3 & Hp3). rewrite H3.
  destruct (stepOffset_eq a st3) as (st4 & H4 & Hq4 & Hp4). rewrite H4.
  intros [= <-].
  apply stepTags_inr in H1. apply stepSort_inr in H2 as [Hq2 Hp2].
  rewrite <- extend_app in H1. fold (contributed a) in H1. subst st1.
  split.
  - rewrite Hq4, Hq3, Hq2, extend_query. unfold statementOf, whereCondition.
    rewrite render_conjunction. cbn [query initialQuery Sql.render].
    now rewrite !append_assoc.
  - rewrite Hp4, Hp3, Hp2, extend_params. unfold valuesOf, whereValues.
    cbn [params initialQuery app]. now rewrite <- !app_assoc.
Qed.

Lemma normalizeTags_usable (l : list (option string)) :
  forallb (fun t => match t with Some _ => true | None => false end) l = true
  <-> exists ps, normalizeTags l = inr ps.
Proof.
  induction l as [|[tag|] l IH]; simpl.
  - split; [now exists [] | reflexivity].
  - rewrite IH. split.
    + intros [ps ->]. now eexists.
    + destruct (normalizeTags l) as [e|ps]; [now intros [? [=]] | now exists ps].
  - split; [discriminate | now intros [? [=]]].
Qed.

(** A statement is built exactly for the requests without a [null] tag and
    without a sort field out of the list. *)
Lemma buildQuery_buildable (a : EventsArgs) :
  buildable a = true <-> exists st, buildQuery a = inr st.
Proof.
  rewrite buildQuery_tail. cbn [runSteps]. unfold buildable.
  rewrite andb_true_iff. split.
  - intros [Ht Hs].
    assert (exists st1, stepTags a (extend (stringContributions a) initialQuery)
                        = inr st1) as [st1 ->].
    { unfold stepTags, tagsUsable in *. destruct (tags a) as [[|t l]|]; eauto.
      apply normalizeTags_usable in Ht as [ps ->]. eauto. }
    assert (exists st2, stepSort a st1 = inr st2) as [st2 ->].
    { unfold stepSort, sortUsable in *. destruct (sort a) as [srt|]; eauto.
      destruct (field srt) as [f|]; eauto.
      destruct (Js.truthy (Some f)); eauto.
      cbn [negb orb] in Hs. rewrite Hs. cbn [negb]. eauto. }
    destruct (stepLimit_eq a st2) as (st3 & -> & _).
    destruct (stepOffset_eq a st3) as (st4 & -> & _). eauto.
  - intros [st H].
    destruct (stepTags a _) as [e|st1] eqn:H1; [discriminate|].
    destruct (stepSort a st1) as [e|st2] eqn:H2; [discriminate|].
    split.
    + unfold stepTags, tagsUsable in *. destruct (tags a) as [[|t l]|]; auto.
      apply normalizeTags_usable.
      destruct (normalizeTags (t :: l)) as [e|ps]; [discriminate | eauto].
    + unfold stepSort, sortUsable in *. destruct (sort a) as [srt|]; auto.
      destruct (field srt) as [f|]; auto.
      destruct (Js.truthy (Some f)); auto.
      destruct (Js.includes validSortFields f); [reflexivity | discriminate].
Qed.

(** ** The resolvers, path by path *)

Lemma events_run (db : Backend) (a : EventsArgs) (w : World) :
  events db a w
  = match buildQuery a with
    | inr st => oneStatement db "Failed to fetch events" (query st) (params st)
                  (fun rows => inr rows) w
    | inl _ =>
        match connectOutcome db with
        | Some e => (inl e, record Refused w)
        | None => (inl (Error "Failed to fetch events"),
                   ended (nextConnection w) (connected w))
        end
    end.
Proof.
  unfold events, oneStatement, bind, connectToDatabase, tryCatchFinally, lift,
    execute, resolve, reject, ended, connected, caught.
  destruct (connectOutcome db) as [e|].
  - now destruct (buildQuery a).
  - destruct (buildQuery a) as [e|st]; [reflexivity|].
    now destruct (answer db (query st) (params st)).
Qed.

Lemma uniqueTags_run (db : Backend) (w : World) :
  uniqueTags db w
  = oneStatement db "Failed to fetch unique tags" "SELECT tags FROM events" []
      (fun rows => match allTags rows with
                   | inl e => inl e
                   | inr l => inr (Js.unique l)
                   end) w.
Proof.
  unfold uniqueTags, oneStatement, bind, connectToDatabase, tryCatchFinally,
    lift, execute, resolve, reject, ended, connected, caught.
  destruct (connectOutcome db) as [e|]; [reflexivity|].
  destruct (answer db _ _) as [e|rows]; [reflexivity|].
  now destruct (allTags rows).
Qed.

Lemma distinctVenues_run (db : Backend) (w : World) :
  distinctVenues db w
  = oneStatement db "Failed to fetch distinct venues"
      "SELECT DISTINCT venue FROM events" []
      (fun rows => inr (map (fun row => {| venue := Event.venue row |}) rows)) w.
Proof.
  unfold distinctVenues, oneStatement, bind, connectToDatabase, tryCatchFinally,
    lift, execute, resolve, reject, ended, connected, caught.
  destruct (connectOutcome db) as [e|]; [reflexivity|].
  now destruct (answer db _ _).
Qed.

Lemma lastUpdated_run (db : Backend) (w : World) :
  lastUpdated db w
  = oneStatement db "Failed to fetch last_updated"
      "SELECT MAX(last_updated) AS last_updated FROM events" []
      (fun rows => inr match rows with
                       | row :: _ => Event.last_updated row
                       | [] => None
                       end) w.
Proof.
  unfold lastUpdated, oneStatement, bind, connectToDatabase, tryCatchFinally,
    lift, execute, resolve, reject, ended, connected, caught.
  destruct (connectOutcome db) as [e|]; [reflexivity|].
  destruct (answer db _ _) as [e|[|row rows]]; reflexivity.
Qed.

(** ** Errors of the operations *)


Lemma oneStatement_reachable {A : Type} ans message statement values
    (process : list Event.t -> Exn + A) (w : World) :
  fst (oneStatement (reachable ans) message statement values process w)
  = caught message (match ans statement values with
                    | inl e => inl e
                    | inr rows => process rows
                    end).
Proof. reflexivity. Qed.

Lemma events_reachable ans (a : EventsArgs) (w : World) :
  fst (events (reachable ans) a w)
  = caught "Failed to fetch events"
      (match buildQuery a with
       | inl e => inl e
       | inr st => ans (query st) (params st)
       end).
Proof.
  rewrite events_run. destruct (buildQuery a) as [e|st]; [reflexivity|].
  rewrite oneStatement_reachable. now destruct (ans (query st) (params st)).
Qed.

(** C1 (defect of the code). A sort field out of the list makes the block of
    the sort throw [Error("Invalid sort field")], but the [catch] of the
    resolver replaces it: the request fails with the same error as a request
    whose statement the server refuses, whatever the server answers. The same
    holds for every exception of the construction of the statement. *)
Theorem invalid_sort_field_error_is_masked :
  stepSort sortByTitle initialQuery = inl (Error "Invalid sort field")
  /\ buildQuery sortByTitle = inl (Error "Invalid sort field")
  /\ (forall ans w,
        fst (events (reachable ans) sortByTitle w)
        = inl (Error "Failed to fetch events"))
  /\ fst (events failing noArgs world0) = inl (Error "Failed to fetch events")
  /\ (forall ans a w e,
        buildQuery a = inl e ->
        fst (events (reachable ans) a w) = inl (Error "Failed to fetch events")).
Proof.
  split; [reflexivity | split; [reflexivity | split; [|split; [reflexivity|]]]].
  - intros ans w. now rewrite events_reachable.
  - intros ans a w e H. now rewrite events_reachable, H.
Qed.



(** ** Connections *)

Lemma ended_connected_releases (w : World) (used : list DbEvent) (w1 : World) :
  nextConnection w1 = S (nextConnection w) ->
  openConnections w1 = nextConnection w :: openConnections w ->
  log w1 = (log w ++ Opened (nextConnection w) :: used)%list ->
  Forall (fun ev => exists statement values,
            ev = Executed (nextConnection w) statement values) used ->
  releasesConnection w (ended (nextConnection w) w1).
Proof.
  intros Hn Ho Hl Hu. exists used. unfold ended. cbn [snd connectionEnd log openConnections].
  rewrite Hl, Ho. split; [|split; [|split]].
  - now rewrite <- app_assoc.
  - exact Hu.
  - intros Hin. apply filter_In in Hin as [_ Hc].
    now rewrite Nat.eqb_refl in Hc.
  - intros c' Hc'. split; intros Hin.
    + apply filter_In in Hin as [[Heq|Hin] _]; [now elim Hc' | exact Hin].
    + apply filter_In. split; [now right|].
      apply negb_true_iff. now apply Nat.eqb_neq.
Qed.

Lemma oneStatement_scoped {A : Type} (db : Backend) message statement values
    (process : list Event.t -> Exn + A) (w : World) :
  connectionScoped db w (snd (oneStatement db message statement values process w)).
Proof.
  unfold connectionScoped, oneStatement.
  destruct (connectOutcome db) as [e|]; [reflexivity|].
  cbn [snd].
  apply (ended_connected_releases w [Executed (nextConnection w) statement values]);
    try reflexivity.
  - cbn. now rewrite <- app_assoc.
  - constructor; [now eexists; eexists | constructor].
Qed.

(** C8. Each of the four operations leaves the connections as it found them,
    on every path: when the server refuses the connection none is opened;
    otherwise the connection of the request is opened first and ended last,
    whether the request succeeds, fails in the construction of the statement
    or fails in the server, and it is not open afterwards. *)
Theorem connection_is_always_released (db : Backend) (w : World) :
  (forall a, connectionScoped db w (snd (events db a w)))
  /\ connectionScoped db w (snd (uniqueTags db w))
  /\ connectionScoped db w (snd (distinctVenues db w))
  /\ connectionScoped db w (snd (lastUpdated db w)).
Proof.
  repeat split.
  - intros a. rewrite events_run. destruct (buildQuery a) as [e|st].
    + unfold connectionScoped. destruct (connectOutcome db); [reflexivity|].
      cbn [snd]. apply (ended_connected_releases w []); try reflexivity.
      constructor.
    + apply oneStatement_scoped.
  - rewrite uniqueTags_run. apply oneStatement_scoped.
  - rewrite distinctVenues_run. apply oneStatement_scoped.
  - rewrite lastUpdated_run. apply oneStatement_scoped.
Qed.

(** ** Placeholders and values *)













(** ** The search condition *)

Lemma and3_true (x y : option bool) :
  Sql.and3 x y = Some true <-> x = Some true /\ y = Some true.
Proof.
  destruct x as [[|]|], y as [[|]|]; simpl; split;
    try discriminate; try tauto; intros [? ?]; discriminate.
Qed.

Lemma or3_true (x y : option bool) :
  Sql.or3 x y = Some true <-> x = Some true \/ y = Some true.
Proof.
  destruct x as [[|]|], y as [[|]|]; simpl; split;
    try discriminate; try tauto; intros [?|?]; discriminate.
Qed.

Section Conditions.

Variable columnTest : Sql.Predicate -> string -> Event.t -> option bool.
Variable row : Event.t.

(** A condition takes its own values and leaves the others. *)
Lemma eval_append (c : Sql.Cond) :
  forall values rest,
    Sql.arity c = length values ->
    Sql.eval columnTest c (values ++ rest)%list row
    = (fst (Sql.eval columnTest c values row), rest).
Proof.
  induction c as [|p|l IHl r IHr|l IHl r IHr|c IH]; intros values rest Hlen;
    cbn [Sql.arity] in Hlen.
  - destruct values; [reflexivity | discriminate].
  - destruct values as [|v [|v' values]]; try discriminate. reflexivity.
  - rewrite <- (firstn_skipn (Sql.arity l) values).
    assert (H1 : Sql.arity l = length (firstn (Sql.arity l) values))
      by (rewrite length_firstn; lia).
    assert (H2 : Sql.arity r = length (skipn (Sql.arity l) values))
      by (rewrite length_skipn; lia).
    set (v1 := firstn (Sql.arity l) values) in *.
    set (v2 := skipn (Sql.arity l) values) in *.
    cbn [Sql.eval]. rewrite <- app_assoc.
    rewrite (IHl v1 (v2 ++ rest)%list H1), (IHr v2 rest H2).
    rewrite (IHl v1 v2 H1).
    rewrite <- (app_nil_r v2) at 2. rewrite (IHr v2 [] H2). reflexivity.
  - rewrite <- (firstn_skipn (Sql.arity l) values).
    assert (H1 : Sql.arity l = length (firstn (Sql.arity l) values))
      by (rewrite length_firstn; lia).
    assert (H2 : Sql.arity r = length (skipn (Sql.arity l) values))
      by (rewrite length_skipn; lia).
    set (v1 := firstn (Sql.arity l) values) in *.
    set (v2 := skipn (Sql.arity l) values) in *.
    cbn [Sql.eval]. rewrite <- app_assoc.
    rewrite (IHl v1 (v2 ++ rest)%list H1), (IHr v2 rest H2).
    rewrite (IHl v1 v2 H1).
    rewrite <- (app_nil_r v2) at 2. rewrite (IHr v2 [] H2). reflexivity.
  - cbn [Sql.eval]. now apply IH.
Qed.

Lemma eval_and (l r : Sql.Cond) (vl vr rest : list string) :
  Sql.arity l = length vl -> Sql.arity r = length vr ->
  Sql.eval columnTest (Sql.CAnd l r) (vl ++ vr ++ rest)%list row
  = (Sql.and3 (fst (Sql.eval columnTest l vl row))
              (fst (Sql.eval columnTest r vr row)), rest).
Proof.
  intros Hl Hr. cbn [Sql.eval].
  rewrite (eval_append l vl (vr ++ rest)%list Hl).
  now rewrite (eval_append r vr rest Hr).
Qed.

(** A conjunction is true on a row exactly when all its conditions are. *)
Lemma selects_conjunction (cs : list Contribution) :
  forall first values rest,
    Sql.arity first = length values ->
    Forall parameterized cs ->
    (Sql.selects columnTest (Sql.conjunction first (map fst cs))
       (values ++ concat (map snd cs) ++ rest)%list row
     <-> Sql.selects columnTest first values row
         /\ Forall (fun c => Sql.selects columnTest (fst c) (snd c) row) cs).
Proof.
  unfold Sql.selects.
  induction cs as [|c cs IH]; intros first values rest Hf Hcs.
  - cbn [map concat Sql.conjunction fold_left app].
    rewrite (eval_append first values rest Hf). cbn [fst].
    split; [intros H; split; [exact H | constructor] | now intros [H _]].
  - inversion Hcs as [|c' cs' Hc Hcs']; subst.
    cbn [map concat]. unfold Sql.conjunction. cbn [fold_left].
    fold (Sql.conjunction (Sql.CAnd first (fst c)) (map fst cs)).
    replace (values ++ (snd c ++ concat (map snd cs)) ++ rest)%list
      with ((values ++ snd c) ++ concat (map snd cs) ++ rest)%list
      by (now rewrite <- !app_assoc).
    rewrite IH; [|cbn [Sql.arity]; rewrite length_app, Hf, Hc; reflexivity
                 |exact Hcs'].
    rewrite <- (app_nil_r (snd c)) at 1.
    rewrite (eval_and first (fst c) values (snd c) [] Hf Hc). cbn [fst].
    rewrite and3_true.
    split.
    + intros [[H1 H2] H3]. split; [exact H1 | now constructor].
    + intros [H1 H2]. inversion H2; subst. now repeat split.
Qed.

(** The group of the tags is true on a row exactly when one of its values
    is found in the tags of the row. *)
Lemma selects_tagGroup {A : Type} (t : A) (l : list A) :
  forall v values,
    length values = length l ->
    (Sql.selects columnTest (tagGroup t l) (v :: values) row
     <-> exists x, In x (v :: values) /\ Sql.tagInSet x row = Some true).
Proof.
  unfold Sql.selects, tagGroup. cbn [Sql.eval].
  induction l as [|t' l IH]; intros v values Hlen.
  - destruct values; [|discriminate]. cbn. split.
    + intros H. exists v. now split; [left|].
    + now intros [x [[<-|[]] H]].
  - destruct values as [|v' values]; [discriminate|].
    cbn [map Sql.disjunction Sql.eval Sql.holds].
    specialize (IH v' values ltac:(now injection Hlen)).
    destruct (Sql.eval columnTest _ (v' :: values) row) as [y rest'] eqn:He.
    cbn [fst] in *. rewrite or3_true, IH. split.
    + intros [H|[x [Hin H]]]; [exists v; now split; [left|]|].
      exists x. split; [now right | exact H].
    + intros [x [[<-|Hin] H]]; [now left|]. right. now exists x.
Qed.

End Conditions.

(** ** [FIND_IN_SET] *)

Lemma splitComma_cons (s : string) :
  exists piece pieces, Js.splitComma s = piece :: pieces.
Proof.
  induction s as [|c s [piece [pieces IH]]]; simpl.
  - now eexists; eexists.
  - destruct (Ascii.eqb c ","); [now eexists; eexists|].
    rewrite IH. now eexists; eexists.
Qed.

Lemma elementIs_head (needle s : string) :
  Sql.elementIs needle s = true <-> hd "" (Js.splitComma s) = needle.
Proof.
  revert s. induction needle as [|n needle IH]; intros [|c s]; simpl.
  - tauto.
  - destruct (Ascii.eqb c ","); simpl; [tauto|].
    destruct (splitComma_cons s) as [piece [pieces ->]]. simpl.
    split; discriminate.
  - split; discriminate.
  - destruct (Ascii.eqb c ","); simpl; [split; discriminate|].
    destruct (splitComma_cons s) as [piece [pieces Hs]].
    specialize (IH s). rewrite Hs in *. simpl in *.
    destruct (Ascii.eqb_spec n c) as [->|Hnc]; simpl.
    + rewrite IH. split; [now intros -> | now intros [= ->]].
    + split; [discriminate | intros [= -> _]; now elim Hnc].
Qed.

Lemma findFrom_positive (needle s : string) :
  forall position atStart,
    0 < position ->
    (0 < Sql.findFrom needle position atStart s
     <-> In needle (if atStart then Js.splitComma s else tl (Js.splitComma s))).
Proof.
  induction s as [|c s IH]; intros position atStart Hpos.
  - cbn [Sql.findFrom Js.splitComma]. destruct atStart; cbn [andb tl In].
    + destruct (Sql.elementIs needle "") eqn:He.
      * apply elementIs_head in He. simpl in He. intuition.
      * split; [lia|]. intros [H|[]].
        assert (Sql.elementIs needle "" = true) by (apply elementIs_head; exact H).
        congruence.
    + split; [lia | tauto].
  - cbn [Sql.findFrom].
    destruct (atStart && Sql.elementIs needle (String c s)) eqn:Hm.
    + apply andb_true_iff in Hm as [-> He]. apply elementIs_head in He.
      destruct (splitComma_cons (String c s)) as [piece [pieces Hs]].
      rewrite Hs in *. simpl in He. subst. split; [now left | lia].
    + assert (Hhead : atStart = true -> hd "" (Js.splitComma (String c s)) <> needle).
      { intros -> He. apply elementIs_head in He. simpl in Hm. congruence. }
      cbn [Js.splitComma] in *. destruct (Ascii.eqb c ",").
      * rewrite (IH (S position) true) by lia.
        destruct atStart; cbn [tl In hd] in *; [|tauto].
        specialize (Hhead eq_refl). intuition.
      * rewrite (IH position false) by lia.
        destruct (splitComma_cons s) as [piece [pieces Hs]]. rewrite Hs in *.
        destruct atStart; cbn [tl In hd] in *; [|tauto].
        specialize (Hhead eq_refl). intuition.
Qed.

(** [FIND_IN_SET] finds a string exactly when it is an element of the list. *)
Lemma FIND_IN_SET_positive (needle strlist : string) :
  0 < Sql.FIND_IN_SET needle strlist <-> In needle (Sql.elements strlist).
Proof.
  unfold Sql.FIND_IN_SET, Sql.elements. destruct strlist as [|c s].
  - simpl. split; [lia | tauto].
  - apply (findFrom_positive needle (String c s) 1 true). lia.
Qed.

Lemma tagInSet_true (value : string) (row : Event.t) :
  Sql.tagInSet value row = Some true
  <-> exists stored, Event.tags row = Some stored
                     /\ In (Sql.LOWER value) (Sql.elements (Sql.LOWER stored)).
Proof.
  unfold Sql.tagInSet. destruct (Event.tags row) as [stored|].
  - split.
    + intros [= H]. exists stored. split; [reflexivity|].
      apply FIND_IN_SET_positive. now apply Nat.ltb_lt.
    + intros [stored' [[= <-] H]]. f_equal.
      apply Nat.ltb_lt. now apply FIND_IN_SET_positive.
  - split; [discriminate | now intros [? [[=] _]]].
Qed.

Lemma requestedTags_usable (l : list (option string)) :
  forallb (fun t => match t with Some _ => true | None => false end) l = true ->
  length (requestedTags l) = length l.
Proof.
  induction l as [|[tag|] l IH]; simpl; intros H; try discriminate; auto.
Qed.


(** ** The filters of [events] *)

Lemma arity_tagGroup {A : Type} (t : A) (l : list A) :
  Sql.arity (tagGroup t l) = S (length l).
Proof.
  unfold tagGroup. cbn [Sql.arity]. induction l as [|x l IH]; [reflexivity|].
  cbn [map Sql.disjunction Sql.arity] in *. now rewrite IH.
Qed.

Lemma contribution_parameterized v p value :
  Forall parameterized (contribution v p value).
Proof.
  destruct v as [[|c s]|]; constructor; [reflexivity | constructor].
Qed.

Lemma contributed_parameterized (a : EventsArgs) :
  tagsUsable a = true -> Forall parameterized (contributed a).
Proof.
  intros Ht. unfold contributed, stringContributions.
  repeat (apply Forall_app; split); try apply contribution_parameterized.
  unfold tagContribution, tagsUsable in *.
  destruct (tags a) as [[|t l]|]; constructor; [|constructor].
  unfold parameterized. cbn [fst snd].
  now rewrite arity_tagGroup, (requestedTags_usable _ Ht).
Qed.

Lemma length_contribution v p value :
  length (contribution v p value) = count (Js.truthy v).
Proof. now destruct v as [[|c s]|]. Qed.

Lemma length_contributed (a : EventsArgs) :
  length (contributed a) = nonEmptyFilters a.
Proof.
  unfold contributed, stringContributions, nonEmptyFilters.
  rewrite !length_app, !length_contribution.
  unfold tagContribution. destruct (tags a) as [[|t l]|]; simpl; lia.
Qed.

Lemma built_tagsUsable (a : EventsArgs) (st : QueryState) :
  buildQuery a = inr st -> tagsUsable a = true.
Proof.
  intros H. assert (Hb : buildable a = true) by (apply buildQuery_buildable; eauto).
  now apply andb_true_iff in Hb.
Qed.

(** C2 as stated fails: an empty string is a present argument, and it
    contributes no condition. *)
Lemma empty_title_contributes_nothing :
  titleContains emptyTitle = Some ""
  /\ buildQuery emptyTitle
     = inr {| query := "SELECT * FROM events WHERE 1=1"; params := [] |}
  /\ ~ EveryPresentFieldContributes.
Proof.
  split; [reflexivity | split; [reflexivity|]].
  intros H. specialize (H emptyTitle initialQuery eq_refl). discriminate H.
Qed.

(** C2 (amended). The statement that [events] builds is the select-all
    statement followed, each after [AND], by the conditions of the arguments
    that are present and not empty: one condition per such string argument
    and one parenthesised group for a non-empty list of tags, each with the
    values of its placeholders; arguments that are absent or empty contribute
    nothing. A row satisfies the search condition exactly when it satisfies
    every contributed condition. *)
Theorem where_is_conjunction_of_nonempty_filters
    (columnTest : Sql.Predicate -> string -> Event.t -> option bool)
    (a : EventsArgs) (st : QueryState) (Hbuilt : buildQuery a = inr st) :
  query st = "SELECT * FROM events WHERE "
             ++ Sql.render (Sql.conjunction Sql.CTrue (map fst (contributed a)))
             ++ orderClause a ++ limitClause a ++ offsetClause a
  /\ params st = (concat (map snd (contributed a))
                  ++ pagingValue (limit a) ++ pagingValue (offset a))%list
  /\ length (contributed a) = nonEmptyFilters a
  /\ Forall parameterized (contributed a)
  /\ (forall row,
        Sql.selects columnTest (Sql.conjunction Sql.CTrue (map fst (contributed a)))
          (params st) row
        <-> Forall (fun c => Sql.selects columnTest (fst c) (snd c) row)
              (contributed a)).
Proof.
  destruct (buildQuery_inr a st Hbuilt) as [Hq Hp].
  pose proof (contributed_parameterized a (built_tagsUsable a st Hbuilt)) as Hpar.
  split; [exact Hq | split; [exact Hp | split; [apply length_contributed | split]]].
  - exact Hpar.
  - intros row. rewrite Hp.
    rewrite (selects_conjunction columnTest row (contributed a) Sql.CTrue []
               (pagingValue (limit a) ++ pagingValue (offset a))%list eq_refl Hpar).
    unfold Sql.selects at 1. cbn [Sql.eval fst]. tauto.
Qed.

Lemma where_is_conjunction_of_nonempty_filters_witness :
  buildQuery sampleRequest = inr sampleState
  /\ length (contributed sampleRequest) = 5.
Proof.
  split; [reflexivity|].
  exact (proj1 (proj2 (proj2
    (where_is_conjunction_of_nonempty_filters anyRow sampleRequest sampleState
       eq_refl)))).
Defined.


(** The statement of a request with tags: the conditions of the string
    arguments, then the group of the tags, then the sort and the paging. *)
Lemma tagged_statement (a : EventsArgs) (t : option string)
    (l : list (option string)) (st : QueryState) :
  tags a = Some (t :: l) -> buildQuery a = inr st ->
  map fst (contributed a) = (map fst (stringContributions a) ++ [tagGroup t l])%list
  /\ query st = "SELECT * FROM events WHERE "
                ++ Sql.render (Sql.conjunction Sql.CTrue
                                 (map fst (stringContributions a) ++ [tagGroup t l]))
                ++ orderClause a ++ limitClause a ++ offsetClause a
  /\ params st = (concat (map snd (stringContributions a))
                  ++ requestedTags (t :: l)
                  ++ pagingValue (limit a) ++ pagingValue (offset a))%list.
Proof.
  intros Htags Hbuilt. destruct (buildQuery_inr a st Hbuilt) as [Hq Hp].
  assert (Hc : contributed a
               = (stringContributions a
                  ++ [(tagGroup t l, requestedTags (t :: l))])%list)
    by (unfold contributed; now rewrite Htags).
  split; [|split].
  - now rewrite Hc, map_app.
  - rewrite Hq. unfold statementOf, whereCondition. now rewrite Hc, map_app.
  - rewrite Hp. unfold valuesOf, whereValues. rewrite Hc, map_app, concat_app.
    cbn [map snd concat]. now rewrite app_nil_r, <- app_assoc.
Qed.



(** C3 (defect of the code). The requested tag is trimmed and both sides are
    compared in lower case, but the elements of the stored list are not
    trimmed: the row whose tags are ["music, jazz"] is not selected by the tag
    [jazz], although [uniqueTags], which trims the stored elements, lists
    [jazz] for that very row. *)
Theorem stored_tag_whitespace_defeats_the_filter :
  buildQuery jazzOnly = inr jazzState
  /\ Sql.tagInSet "jazz" spacedRow = Some false
  /\ (forall columnTest,
        fst (Sql.eval columnTest (whereCondition jazzOnly) (params jazzState)
               spacedRow) = Some false)
  /\ fst (uniqueTags spacedTable world0) = inr ["music"; "jazz"]
  /\ Sql.tagInSet (Js.toLowerCase (Js.trim "  JaZZ "))
       (rowWith "2024-05-03 20:00:00" "Music,Jazz") = Some true.
Proof.
  split; [reflexivity | split; [reflexivity | split; [|split; reflexivity]]].
  intros columnTest. reflexivity.
Qed.

(** ** Paging *)

Lemma positiveNumber_Some (v : Js.Value) (m : Z) :
  Js.positiveNumber v = Some m <-> v = Js.JsNumber m /\ (0 < m)%Z.
Proof.
  destruct v as [| |k|s]; simpl; try (split; [discriminate | now intros [[=] _]]).
  destruct (Z.ltb_spec 0 k) as [Hk|Hk]; split.
  - now intros [= <-].
  - now intros [[= <-] _].
  - discriminate.
  - intros [[= <-] Hm]. lia.
Qed.

Lemma stepLimit_nonpositive (a : EventsArgs) (n : Z) :
  (n <= 0)%Z ->
  stepLimit (withLimit (Js.JsNumber n) a) = stepLimit (withLimit Js.JsUndefined a).
Proof.
  intros Hn. unfold stepLimit. cbn [limit withLimit Js.positiveNumber].
  destruct (Z.ltb_spec 0 n); [lia | reflexivity].
Qed.

Lemma stepOffset_nonpositive (a : EventsArgs) (n : Z) :
  (n <= 0)%Z ->
  stepOffset (withOffset (Js.JsNumber n) a) = stepOffset (withOffset Js.JsUndefined a).
Proof.
  intros Hn. unfold stepOffset. cbn [offset withOffset Js.positiveNumber].
  destruct (Z.ltb_spec 0 n); [lia | reflexivity].
Qed.

Lemma buildQuery_limit_nonpositive (a : EventsArgs) (n : Z) :
  (n <= 0)%Z ->
  buildQuery (withLimit (Js.JsNumber n) a) = buildQuery (withLimit Js.JsUndefined a).
Proof.
  intros Hn. unfold buildQuery, eventsSteps.
  now rewrite (stepLimit_nonpositive a n Hn).
Qed.

Lemma buildQuery_offset_nonpositive (a : EventsArgs) (n : Z) :
  (n <= 0)%Z ->
  buildQuery (withOffset (Js.JsNumber n) a) = buildQuery (withOffset Js.JsUndefined a).
Proof.
  intros Hn. unfold buildQuery, eventsSteps.
  now rewrite (stepOffset_nonpositive a n Hn).
Qed.

Lemma events_same_statement (db : Backend) (a b : EventsArgs) (w : World) :
  buildQuery a = buildQuery b -> events db a w = events db b w.
Proof. intros H. now rewrite !events_run, H. Qed.

(** C4. A limit or an offset that is zero or negative is ignored: the request
    does what it does without the argument, and the statement has no
    [LIMIT] (or [OFFSET]) clause. The block of the limit (of the offset)
    changes the statement only for a positive number, and then it appends the
    clause with that number as value. *)
Theorem nonpositive_paging_is_ignored (a : EventsArgs) (n : Z)
    (Hn : (n <= 0)%Z) :
  (forall db w, events db (withLimit (Js.JsNumber n) a) w
                = events db (withLimit Js.JsUndefined a) w)
  /\ (forall db w, events db (withOffset (Js.JsNumber n) a) w
                   = events db (withOffset Js.JsUndefined a) w)
  /\ (forall st, buildQuery (withLimit (Js.JsNumber n) a) = inr st ->
        query st = "SELECT * FROM events WHERE "
                   ++ Sql.render (Sql.conjunction Sql.CTrue (map fst (contributed a)))
                   ++ orderClause a ++ offsetClause a
        /\ params st = (concat (map snd (contributed a)) ++ pagingValue (offset a))%list)
  /\ (forall st, buildQuery (withOffset (Js.JsNumber n) a) = inr st ->
        query st = "SELECT * FROM events WHERE "
                   ++ Sql.render (Sql.conjunction Sql.CTrue (map fst (contributed a)))
                   ++ orderClause a ++ limitClause a
        /\ params st = (concat (map snd (contributed a)) ++ pagingValue (limit a))%list)
  /\ (forall b st,
        match Js.positiveNumber (limit b) with
        | Some m => limit b = Js.JsNumber m /\ (0 < m)%Z
                    /\ stepLimit b st
                       = inr (pushParams [Js.numberToString m]
                                (appendQuery " LIMIT ?" st))
        | None => stepLimit b st = inr st
        end
        /\ match Js.positiveNumber (offset b) with
           | Some m => offset b = Js.JsNumber m /\ (0 < m)%Z
                       /\ stepOffset b st
                          = inr (pushParams [Js.numberToString m]
                                   (appendQuery " OFFSET ?" st))
           | None => stepOffset b st = inr st
           end).
Proof.
  split; [|split; [|split; [|split]]].
  - intros db w. apply events_same_statement.
    now apply buildQuery_limit_nonpositive.
  - intros db w. apply events_same_statement.
    now apply buildQuery_offset_nonpositive.
  - intros st H. apply buildQuery_inr in H as [Hq Hp].
    rewrite Hq, Hp. unfold statementOf, valuesOf, whereCondition, whereValues,
      limitClause, pagingValue.
    cbn [limit withLimit Js.positiveNumber].
    destruct (Z.ltb_spec 0 n); [lia|]. split; reflexivity.
  - intros st H. apply buildQuery_inr in H as [Hq Hp].
    rewrite Hq, Hp. unfold statementOf, valuesOf, whereCondition, whereValues,
      offsetClause, pagingValue at 2.
    cbn [offset withOffset Js.positiveNumber].
    destruct (Z.ltb_spec 0 n); [lia|].
    rewrite append_empty_r, app_nil_r. split; reflexivity.
  - intros b st. split.
    + unfold stepLimit.
      destruct (Js.positiveNumber (limit b)) as [m|] eqn:Hm; [|reflexivity].
      apply positiveNumber_Some in Hm as [Hl Hm]. now repeat split.
    + unfold stepOffset.
      destruct (Js.positiveNumber (offset b)) as [m|] eqn:Hm; [|reflexivity].
      apply positiveNumber_Some in Hm as [Hl Hm]. now repeat split.
Qed.

Lemma nonpositive_paging_is_ignored_witness :
  (-3 <= 0)%Z
  /\ events twoRows (withLimit (Js.JsNumber (-3)) sampleRequest) world0
     = events twoRows (withLimit Js.JsUndefined sampleRequest) world0.
Proof.
  split; [lia|].
  apply (proj1 (nonpositive_paging_is_ignored sampleRequest (-3) ltac:(lia))).
Defined.

(** ** The end of the statement *)

Lemma startsWith_common (p s t : string) :
  startsWith (p ++ s) (p ++ t) = startsWith s t.
Proof.
  induction p as [|c p IH]; simpl; [reflexivity|].
  now rewrite Ascii.eqb_refl.
Qed.

Lemma endsWith_common (s t u : string) : endsWith (s ++ u) (t ++ u) = endsWith s t.
Proof.
  unfold endsWith. rewrite !revString_append. apply startsWith_common.
Qed.





(** ** Sorting *)





(** ** An offset without a limit *)

Lemma clause_not_limit (c : Contribution) (s : string) :
  endsLikeCondition c -> endsWith (s ++ clauseOf c) " LIMIT ?" = false.
Proof.
  destruct c as [cond values]. unfold clauseOf, endsLikeCondition. cbn [fst].
  intros [[p ->]|[c' ->]].
  - unfold endsWith. rewrite revString_append. now destruct p.
  - cbn [Sql.render].
    replace (s ++ " AND " ++ "(" ++ Sql.render c' ++ ")")
      with ((s ++ " AND " ++ "(" ++ Sql.render c') ++ ")")
      by (now rewrite !append_assoc).
    unfold endsWith. now rewrite revString_append.
Qed.

Lemma clauses_not_limit (cs : list Contribution) :
  Forall endsLikeCondition cs ->
  forall s, endsWith s " LIMIT ?" = false ->
            endsWith (s ++ clausesText cs) " LIMIT ?" = false.
Proof.
  induction 1 as [|c cs Hc Hcs IH]; intros s Hs; cbn [clausesText].
  - now rewrite append_empty_r.
  - rewrite <- append_assoc. apply IH. now apply clause_not_limit.
Qed.

Lemma contribution_endsLike v p value :
  Forall endsLikeCondition (contribution v p value).
Proof.
  destruct v as [[|c s]|]; constructor; [left; now exists p | constructor].
Qed.

Lemma contributed_endsLike (a : EventsArgs) :
  Forall endsLikeCondition (contributed a).
Proof.
  unfold contributed, stringContributions.
  repeat (apply Forall_app; split); try apply contribution_endsLike.
  unfold tagContribution. destruct (tags a) as [[|t l]|]; constructor;
    [right; now eexists | constructor].
Qed.

(** Before the paging, the statement never ends with [LIMIT ?]. *)
Lemma unpaged_not_limit (a : EventsArgs) :
  endsWith ("SELECT * FROM events WHERE "
            ++ Sql.render (Sql.conjunction Sql.CTrue (map fst (contributed a)))
            ++ orderClause a) " LIMIT ?" = false.
Proof.
  rewrite render_conjunction. cbn [Sql.render].
  unfold orderClause. destruct (sort a) as [srt|].
  - destruct (Js.truthy (field srt)).
    + rewrite <- !append_assoc. unfold endsWith.
      destruct (requestedDirection (order srt)); rewrite revString_append;
        reflexivity.
    + rewrite append_empty_r, <- append_assoc.
      apply clauses_not_limit; [apply contributed_endsLike | reflexivity].
  - rewrite append_empty_r, <- append_assoc.
    apply clauses_not_limit; [apply contributed_endsLike | reflexivity].
Qed.

Lemma twoRows_refusesOffsetWithoutLimit : refusesOffsetWithoutLimit twoRows.
Proof.
  intros statement values H. unfold twoRows. cbn [answer]. rewrite H. now eexists.
Qed.

(** C9. For a request with a positive offset and a limit that is absent, not
    a number, zero or negative, the statement ends with [OFFSET ?] and the
    offset is not preceded by [LIMIT ?]; a server that accepts the connection
    and refuses such a statement, as the grammar of MySQL does, makes the
    request fail with the generic error of [events]: no rows are returned. *)
Theorem offset_without_limit_fails (db : Backend) (a : EventsArgs) (w : World)
    (n : Z)
    (Hconnect : connectOutcome db = None)
    (Hgrammar : refusesOffsetWithoutLimit db)
    (Hoffset : offset a = Js.JsNumber n) (Hn : (0 < n)%Z)
    (Hlimit : match limit a with Js.JsNumber m => (m <= 0)%Z | _ => True end) :
  fst (events db a w) = inl (Error "Failed to fetch events")
  /\ (forall st, buildQuery a = inr st ->
        query st = "SELECT * FROM events WHERE "
                   ++ Sql.render (Sql.conjunction Sql.CTrue (map fst (contributed a)))
                   ++ orderClause a ++ " OFFSET ?"
        /\ endsWith (query st) " OFFSET ?" = true
        /\ endsWith (query st) " LIMIT ? OFFSET ?" = false).
Proof.
  assert (Hl : limitClause a = "").
  { unfold limitClause. destruct (limit a) as [| |m|s]; try reflexivity.
    simpl. destruct (Z.ltb_spec 0 m); [lia | reflexivity]. }
  assert (Ho : offsetClause a = " OFFSET ?").
  { unfold offsetClause. rewrite Hoffset. simpl.
    destruct (Z.ltb_spec 0 n); [reflexivity | lia]. }
  assert (Hshape : forall st, buildQuery a = inr st ->
            query st = "SELECT * FROM events WHERE "
                       ++ Sql.render (Sql.conjunction Sql.CTrue (map fst (contributed a)))
                       ++ orderClause a ++ " OFFSET ?"
            /\ endsWith (query st) " OFFSET ?" = true
            /\ endsWith (query st) " LIMIT ? OFFSET ?" = false).
  { intros st H. apply buildQuery_inr in H as [Hq _].
    assert (Hq' : query st
                  = ("SELECT * FROM events WHERE "
                     ++ Sql.render (Sql.conjunction Sql.CTrue (map fst (contributed a)))
                     ++ orderClause a) ++ " OFFSET ?").
    { rewrite Hq. unfold statementOf, whereCondition. rewrite Hl, Ho.
      now rewrite !append_assoc. }
    split; [|split].
    - rewrite Hq'. now rewrite !append_assoc.
    - rewrite Hq'. apply endsWith_append.
    - rewrite Hq'. change " LIMIT ? OFFSET ?" with (" LIMIT ?" ++ " OFFSET ?").
      rewrite endsWith_common. apply unpaged_not_limit. }
  split; [|exact Hshape].
  rewrite events_run. destruct (buildQuery a) as [e|st] eqn:Hb.
  - now rewrite Hconnect.
  - unfold oneStatement. rewrite Hconnect. cbn [fst].
    destruct (Hshape st eq_refl) as (_ & H1 & H2).
    destruct (Hgrammar (query st) (params st)) as [e ->]; [|reflexivity].
    unfold offsetWithoutLimit. now rewrite H1, H2.
Qed.

Lemma offset_without_limit_fails_witness :
  connectOutcome twoRows = None
  /\ refusesOffsetWithoutLimit twoRows
  /\ offset offsetOnly = Js.JsNumber 20
  /\ (0 < 20)%Z
  /\ fst (events twoRows offsetOnly world0) = inl (Error "Failed to fetch events").
Proof.
  split; [reflexivity | split; [exact twoRows_refusesOffsetWithoutLimit|]].
  split; [reflexivity | split; [lia|]].
  exact (proj1 (offset_without_limit_fails twoRows offsetOnly world0 20 eq_refl
                  twoRows_refusesOffsetWithoutLimit eq_refl ltac:(lia) I)).
Defined.

(** * Further properties of the resolvers *)

(** ** When a statement is built *)

Lemma normalizeTags_null (l : list (option string)) :
  forallb (fun t => match t with Some _ => true | None => false end) l = false ->
  normalizeTags l
  = inl (TypeError "Cannot read properties of null (reading 'trim')").
Proof.
  induction l as [|[tag|] l IH]; simpl; intros H; try discriminate.
  - now rewrite (IH H).
  - reflexivity.
Qed.

Lemma runSteps_cons_inl (step : Step) (rest : list Step) (st : QueryState)
    (e : Exn) :
  step st = inl e -> runSteps (step :: rest) st = inl e.
Proof. intros H. simpl. rewrite H. reflexivity. Qed.

(** X1. The construction of the statement has two ways to fail, and fails in
    no other case: a [null] among the requested tags makes it throw a
    [TypeError], whatever the sort; without one, a non-empty sort field other
    than [date_time] (compared exactly, letter case included) makes it throw
    [Error("Invalid sort field")]; in every other case a statement is built. *)
Theorem buildQuery_fails_only_on_null_tag_or_sort_field (a : EventsArgs) :
  (hasNullTag a = true ->
     buildQuery a
     = inl (TypeError "Cannot read properties of null (reading 'trim')"))
  /\ (hasNullTag a = false ->
      forall srt c f, sort a = Some srt -> field srt = Some (String c f) ->
                      String c f <> "date_time" ->
                      buildQuery a = inl (Error "Invalid sort field"))
  /\ (hasNullTag a = false ->
      (forall srt c f, sort a = Some srt -> field srt = Some (String c f) ->
                       String c f = "date_time") ->
      exists st, buildQuery a = inr st).
Proof.
  unfold hasNullTag. split; [|split].
  - intros H. apply negb_true_iff in H.
    rewrite buildQuery_tail. apply runSteps_cons_inl.
    unfold stepTags, tagsUsable in *.
    destruct (tags a) as [[|t l]|]; try discriminate.
    now rewrite (normalizeTags_null _ H).
  - intros H srt c f Hs Hf Hne. apply negb_false_iff in H.
    rewrite buildQuery_tail. cbn [runSteps].
    assert (exists st1, stepTags a (extend (stringContributions a) initialQuery)
                        = inr st1) as [st1 ->].
    { unfold stepTags, tagsUsable in *. destruct (tags a) as [[|t l]|]; eauto.
      apply normalizeTags_usable in H as [ps ->]. eauto. }
    unfold stepSort. rewrite Hs, Hf. cbn [Js.truthy].
    destruct (Js.includes validSortFields (String c f)) eqn:Hv; [|reflexivity].
    now apply includes_validSortFields in Hv.
  - intros H Hsort. apply negb_false_iff in H.
    apply buildQuery_buildable. unfold buildable. rewrite H. cbn [andb].
    unfold sortUsable. destruct (sort a) as [srt|]; [|reflexivity].
    destruct (field srt) as [[|c f]|] eqn:Hf; try reflexivity.
    cbn [Js.truthy negb orb]. apply includes_validSortFields.
    now apply (Hsort srt c f).
Qed.

(** ** What the text of the statement depends on *)

Lemma map_constant {A B : Type} (c : B) (l : list A) :
  map (fun _ => c) l = repeat c (length l).
Proof. induction l as [|x l IH]; simpl; [reflexivity | now rewrite IH]. Qed.

Lemma tagGroup_length {A : Type} (t : A) (l : list A) :
  tagGroup t l = tagGroup tt (repeat tt (length l)).
Proof.
  unfold tagGroup. now rewrite !map_constant, repeat_length.
Qed.

Lemma contribution_condition v p value :
  map fst (contribution v p value) = flagCondition (Js.truthy v) p.
Proof. now destruct v as [[|c s]|]. Qed.

Lemma contributed_conditions (a : EventsArgs) :
  map fst (contributed a) = shapeConditions (shape a).
Proof.
  unfold contributed, stringContributions, shapeConditions.
  rewrite !map_app, !contribution_condition. cbn [shape hasTitle hasStartDate
    hasEndDate hasDayOfWeek hasTimeBefore hasTimeAfter hasVenue tagCount].
  rewrite <- !app_assoc. repeat f_equal. unfold tagContribution.
  destruct (tags a) as [[|t l]|]; try reflexivity.
  cbn [map fst length]. now rewrite (tagGroup_length t l).
Qed.

Lemma statementOf_shape (a : EventsArgs) : statementOf a = shapeStatement (shape a).
Proof.
  unfold statementOf, shapeStatement, whereCondition.
  rewrite contributed_conditions. do 2 f_equal.
  cbn [shape sortDirection hasLimit hasOffset].
  unfold orderClause, limitClause, offsetClause, isPositive.
  destruct (sort a) as [srt|];
    [destruct (Js.truthy (field srt))|];
    destruct (Js.positiveNumber (limit a)), (Js.positiveNumber (offset a));
    reflexivity.
Qed.

(** X2. The text of the statement is a function of the shape of the request
    alone: no character of a string argument, of a tag or of a number reaches
    it. Two requests of the same shape give the same text, whatever their
    values. *)
Theorem statement_text_depends_on_shape_only (a : EventsArgs) (st : QueryState)
    (Hbuilt : buildQuery a = inr st) :
  query st = shapeStatement (shape a)
  /\ (forall b st', shape b = shape a -> buildQuery b = inr st' ->
                    query st' = query st).
Proof.
  destruct (buildQuery_inr a st Hbuilt) as [Hq _].
  split.
  - now rewrite Hq, statementOf_shape.
  - intros b st' Hs Hb. destruct (buildQuery_inr b st' Hb) as [Hq' _].
    now rewrite Hq, Hq', !statementOf_shape, Hs.
Qed.

Lemma statement_text_depends_on_shape_only_witness :
  buildQuery sampleRequest = inr sampleState
  /\ shape otherValues = shape sampleRequest
  /\ buildQuery otherValues = inr otherState
  /\ query otherState = query sampleState.
Proof.
  split; [reflexivity | split; [reflexivity | split; [reflexivity|]]].
  exact (proj2 (statement_text_depends_on_shape_only sampleRequest sampleState
                  eq_refl) otherValues otherState eq_refl eq_refl).
Defined.

(** ** Requests that [events] does not tell apart *)

Lemma runSteps_ext (steps1 steps2 : list Step) :
  Forall2 (fun s1 s2 : Step => forall st, s1 st = s2 st) steps1 steps2 ->
  forall st, runSteps steps1 st = runSteps steps2 st.
Proof.
  induction 1 as [|s1 s2 l1 l2 Hs Hl IH]; intros st; simpl; [reflexivity|].
  rewrite Hs. destruct (s2 st); [reflexivity | apply IH].
Qed.

Lemma normalizeTags_same (l1 l2 : list (option string)) :
  Forall2 sameRequestedTag l1 l2 ->
  normalizeTags l1 = normalizeTags l2 /\ length l1 = length l2.
Proof.
  induction 1 as [|t1 t2 l1 l2 Ht Hl [IH Hlen]]; [now split|].
  unfold sameRequestedTag in Ht.
  destruct t1 as [s1|], t2 as [s2|]; try discriminate; simpl.
  - injection Ht as Ht. rewrite IH, Ht, Hlen. now split.
  - now rewrite Hlen.
Qed.

Lemma stepTags_same (a : EventsArgs) (l1 l2 : list (option string)) :
  Forall2 sameRequestedTag l1 l2 ->
  forall st, stepTags (withTags l1 a) st = stepTags (withTags l2 a) st.
Proof.
  intros H st. destruct (normalizeTags_same l1 l2 H) as [Hn Hlen].
  unfold stepTags. cbn [tags withTags].
  destruct l1 as [|t1 l1], l2 as [|t2 l2]; try discriminate; [reflexivity|].
  rewrite Hn. unfold tagConditions.
  rewrite (map_constant tagCondition (t1 :: l1)), (map_constant tagCondition (t2 :: l2)).
  now rewrite Hlen.
Qed.

(** X3. Requested tags that differ only by letter case and by white space
    around them are the same request: [events] builds the same statement with
    the same values, and so does the same thing on every server. *)
Theorem requested_tags_are_normalized (a : EventsArgs)
    (l1 l2 : list (option string)) (Hsame : Forall2 sameRequestedTag l1 l2) :
  buildQuery (withTags l1 a) = buildQuery (withTags l2 a)
  /\ (forall db w, events db (withTags l1 a) w = events db (withTags l2 a) w).
Proof.
  assert (Hb : buildQuery (withTags l1 a) = buildQuery (withTags l2 a)).
  { unfold buildQuery, eventsSteps. apply runSteps_ext.
    repeat (constructor; [first [now intros st | apply (stepTags_same a l1 l2 Hsame)]|]).
    constructor. }
  split; [exact Hb|]. intros db w. now apply events_same_statement.
Qed.

Lemma requested_tags_are_normalized_witness :
  Forall2 sameRequestedTag [Some " JAZZ "; Some "Piano"] [Some "jazz"; Some "piano"]
  /\ events twoRows shoutedTags world0 = events twoRows plainTags world0.
Proof.
  assert (H : Forall2 sameRequestedTag [Some " JAZZ "; Some "Piano"]
                [Some "jazz"; Some "piano"])
    by (repeat constructor).
  split; [exact H|].
  exact (proj2 (requested_tags_are_normalized sampleRequest _ _ H) twoRows world0).
Defined.

Lemma whenTruthy_nonEmpty (v : option string) text value (st : QueryState) :
  whenTruthy (nonEmpty v) text value st = whenTruthy v text value st.
Proof. now destruct v as [[|c s]|]. Qed.

Lemma nonEmpty_idempotent (v : option string) : nonEmpty (nonEmpty v) = nonEmpty v.
Proof. now destruct v as [[|c s]|]. Qed.

Lemma positiveNumber_canonical (v : Js.Value) :
  Js.positiveNumber match Js.positiveNumber v with
                    | Some n => Js.JsNumber n
                    | None => Js.JsUndefined
                    end
  = Js.positiveNumber v.
Proof.
  destruct (Js.positiveNumber v) as [n|] eqn:H; [|reflexivity].
  apply positiveNumber_Some in H as [_ Hn]. simpl.
  destruct (Z.ltb_spec 0 n); [reflexivity | lia].
Qed.

(** X4. The guards of [events] skip an empty string, an empty list of tags, a
    sort whose field is absent or empty (whatever its order) and a limit or an
    offset that is not a positive number: the request does what the request
    without them does, on every server. *)
Theorem skipped_arguments_are_as_absent (a : EventsArgs) :
  buildQuery (canonical a) = buildQuery a
  /\ (forall db w, events db (canonical a) w = events db a w)
  /\ canonical (canonical a) = canonical a.
Proof.
  assert (Hb : buildQuery (canonical a) = buildQuery a).
  { unfold buildQuery, eventsSteps. apply runSteps_ext.
    repeat (constructor; [first [intros st; apply whenTruthy_nonEmpty | idtac]|]);
      [| | | |constructor].
    - intros st. unfold stepTags. cbn [tags canonical].
      now destruct (tags a) as [[|t l]|].
    - intros st. unfold stepSort. cbn [sort canonical].
      destruct (sort a) as [srt|]; [|reflexivity].
      destruct (field srt) as [[|c f]|] eqn:Hf; cbn [Js.truthy]; try reflexivity.
      now rewrite Hf.
    - intros st. unfold stepLimit. cbn [limit canonical].
      now rewrite positiveNumber_canonical.
    - intros st. unfold stepOffset. cbn [offset canonical].
      now rewrite positiveNumber_canonical. }
  split; [exact Hb | split].
  - intros db w. now apply events_same_statement.
  - unfold canonical at 1. cbn [startDate endDate dayOfWeek timeOfDayBefore
      timeOfDayAfter tags titleContains venueContains sort limit offset canonical].
    rewrite !nonEmpty_idempotent, !positiveNumber_canonical.
    unfold canonical. f_equal.
    + now destruct (tags a) as [[|t l]|].
    + destruct (sort a) as [srt|]; [|reflexivity].
      destruct (Js.truthy (field srt)) eqn:Hf; [now rewrite Hf | reflexivity].
Qed.

(** ** What [events] asks of the server *)

(** X5. [events] opens the connection before it looks at the arguments. A
    request whose statement cannot be built opens and ends a connection
    without running any statement; every other request runs exactly one
    statement, the one that was built, with its values, and returns the rows
    as the server answered them. Rows are returned in no other case. *)
Theorem events_runs_the_built_statement_once (db : Backend) (a : EventsArgs)
    (w : World) :
  log (snd (events db a w))
  = (log w
     ++ match connectOutcome db with
        | Some _ => [Refused]
        | None =>
            match buildQuery a with
            | inr st => [Opened (nextConnection w);
                         Executed (nextConnection w) (query st) (params st);
                         Closed (nextConnection w)]
            | inl _ => [Opened (nextConnection w); Closed (nextConnection w)]
            end
        end)%list
  /\ (forall rows,
        fst (events db a w) = inr rows
        <-> connectOutcome db = None
            /\ exists st, buildQuery a = inr st
                          /\ answer db (query st) (params st) = inr rows).
Proof.
  rewrite events_run. unfold oneStatement.
  destruct (connectOutcome db) as [e|], (buildQuery a) as [e'|st]; cbn [fst snd].
  - split; [reflexivity|]. intros rows.
    split; [discriminate | now intros [[=] _]].
  - split; [reflexivity|]. intros rows.
    split; [discriminate | now intros [[=] _]].
  - split; [cbn; now rewrite <- app_assoc|]. intros rows.
    split; [discriminate | now intros [_ [st [[=] _]]]].
  - split; [cbn; now rewrite <- !app_assoc|]. intros rows. split.
    + destruct (answer db (query st) (params st)) as [e|rows'] eqn:Ha;
        [discriminate|].
      intros [= <-]. split; [reflexivity|]. now exists st.
    + intros [_ [st' [[= <-] Ha]]]. now rewrite Ha.
Qed.

(** ** The tags that [uniqueTags] lists *)

Lemma includes_In (l : list string) (x : string) :
  Js.includes l x = true <-> In x l.
Proof.
  unfold Js.includes. rewrite existsb_exists. split.
  - intros [y [Hin Heq]]. apply String.eqb_eq in Heq. now subst.
  - intros Hin. exists x. split; [exact Hin | apply String.eqb_refl].
Qed.

Lemma uniqueFrom_spec (l seen : list string) :
  NoDup (Js.uniqueFrom seen l)
  /\ (forall x, In x (Js.uniqueFrom seen l) <-> In x l /\ ~ In x seen).
Proof.
  revert seen. induction l as [|y l IH]; intros seen; simpl.
  - split; [constructor | tauto].
  - destruct (Js.includes seen y) eqn:Hy.
    + apply includes_In in Hy. destruct (IH seen) as [Hnd Hin].
      split; [exact Hnd|]. intros x. rewrite Hin. split; [tauto|].
      intros [[<-|H] Hn]; [contradiction | tauto].
    + assert (Hy' : ~ In y seen).
      { intros H. apply includes_In in H. congruence. }
      destruct (IH (y :: seen)) as [Hnd Hin]. split.
      * constructor; [|exact Hnd]. rewrite Hin. simpl. tauto.
      * intros x. simpl. rewrite Hin. simpl. split.
        -- intros [<-|[H1 H2]]; tauto.
        -- intros [[<-|H1] H2]; [now left|].
           destruct (string_dec y x) as [->|Hne]; [now left | right; tauto].
Qed.

Lemma allTags_spec (rows : list Event.t) (l : list string) :
  allTags rows = inr l ->
  forall x, In x l
            <-> exists row stored piece,
                  In row rows /\ Event.tags row = Some stored
                  /\ In piece (Js.splitComma stored)
                  /\ x = Js.toLowerCase (Js.trim piece).
Proof.
  revert l. induction rows as [|row rows IH]; intros l H x; simpl in H.
  - injection H as <-. split; [intros [] | now intros (? & ? & ? & [] & _)].
  - unfold rowTags in H. destruct (Event.tags row) as [stored|] eqn:Hs;
      [|discriminate].
    destruct (allTags rows) as [e|rest]; [discriminate|].
    injection H as <-. rewrite in_app_iff, in_map_iff, (IH rest eq_refl x). split.
    + intros [[piece [<- Hp]]|(row' & stored' & piece & Hin & Hs' & Hp & ->)].
      * exists row, stored, piece. repeat split; [now left | exact Hs | exact Hp].
      * exists row', stored', piece. repeat split; [now right | exact Hs' | exact Hp].
    + intros (row' & stored' & piece & [<-|Hin] & Hs' & Hp & ->).
      * left. rewrite Hs in Hs'. injection Hs' as <-. now exists piece.
      * right. now exists row', stored', piece.
Qed.

Lemma allTags_null (rows : list Event.t) :
  (exists e, allTags rows = inl e)
  <-> exists row, In row rows /\ Event.tags row = None.
Proof.
  induction rows as [|row rows IH]; simpl.
  - split; [now intros [? [=]] | now intros [? [[] _]]].
  - unfold rowTags. destruct (Event.tags row) as [stored|] eqn:Hs.
    + destruct (allTags rows) as [e|rest].
      * split; [|intros _; now exists e].
        intros _. destruct (proj1 IH) as [row' [Hin Hn]]; [now exists e|].
        exists row'. split; [now right | exact Hn].
      * split; [now intros [? [=]]|].
        intros [row' [[<-|Hin] Hn]]; [congruence|].
        destruct (proj2 IH) as [e He]; [now exists row' | discriminate He].
    + split; [|intros _; now eexists].
      intros _. exists row. split; [now left | exact Hs].
Qed.

Lemma uniqueTags_result (db : Backend) (w : World) :
  fst (uniqueTags db w)
  = match connectOutcome db with
    | Some e => inl e
    | None =>
        caught "Failed to fetch unique tags"
          match answer db "SELECT tags FROM events" [] with
          | inl e => inl e
          | inr rows => match allTags rows with
                        | inl e => inl e
                        | inr l => inr (Js.unique l)
                        end
          end
    end.
Proof.
  rewrite uniqueTags_run. unfold oneStatement.
  now destruct (connectOutcome db).
Qed.

(** X6. When [uniqueTags] returns a list, no tag is in it twice, and a tag is
    in it exactly when it is a piece between the commas of the tags of some
    row that the server returned, trimmed and in lower case. *)
Theorem uniqueTags_lists_each_tag_once (db : Backend) (w : World)
    (l : list string) (Hlist : fst (uniqueTags db w) = inr l) :
  exists rows,
    answer db "SELECT tags FROM events" [] = inr rows
    /\ NoDup l
    /\ (forall x, In x l
                  <-> exists row stored piece,
                        In row rows /\ Event.tags row = Some stored
                        /\ In piece (Js.splitComma stored)
                        /\ x = Js.toLowerCase (Js.trim piece)).
Proof.
  rewrite uniqueTags_result in Hlist.
  destruct (connectOutcome db); [discriminate|].
  destruct (answer db _ _) as [e|rows]; [discriminate|].
  destruct (allTags rows) as [e|tagList] eqn:Ht; [discriminate|].
  injection Hlist as <-. exists rows. split; [reflexivity|].
  destruct (uniqueFrom_spec tagList []) as [Hnd Hin]. split; [exact Hnd|].
  intros x. unfold Js.unique. rewrite Hin, <- (allTags_spec rows tagList Ht x).
  simpl. tauto.
Qed.

Lemma uniqueTags_lists_each_tag_once_witness :
  fst (uniqueTags twoRows world0) = inr ["piano"; "recital"; "music"; "jazz"]
  /\ NoDup ["piano"; "recital"; "music"; "jazz"].
Proof.
  split; [reflexivity|].
  destruct (uniqueTags_lists_each_tag_once twoRows world0
              ["piano"; "recital"; "music"; "jazz"] eq_refl)
    as [rows [_ [Hnd _]]].
  exact Hnd.
Defined.

(** X7. [uniqueTags] fails on a [NULL]: once the connection is established
    and the server has answered with rows, the operation throws its generic
    error exactly when the tags of some row are [NULL]; it returns a list
    otherwise, the empty list for no rows. *)
Theorem uniqueTags_fails_on_null_tags (db : Backend) (w : World)
    (rows : list Event.t)
    (Hconnect : connectOutcome db = None)
    (Hrows : answer db "SELECT tags FROM events" [] = inr rows) :
  (fst (uniqueTags db w) = inl (Error "Failed to fetch unique tags")
   <-> exists row, In row rows /\ Event.tags row = None)
  /\ ((forall row, In row rows -> Event.tags row <> None) ->
      exists l, fst (uniqueTags db w) = inr l)
  /\ (rows = [] -> fst (uniqueTags db w) = inr []).
Proof.
  rewrite uniqueTags_result, Hconnect, Hrows.
  pose proof (allTags_null rows) as Hnull.
  destruct (allTags rows) as [e|l] eqn:Ht; cbn [caught].
  - assert (Hex : exists row, In row rows /\ Event.tags row = None)
      by (apply Hnull; now exists e).
    split; [tauto | split].
    + intros Hall. destruct Hex as [row [Hin Hn]]. now elim (Hall row Hin).
    + intros ->. discriminate Ht.
  - split; [|split].
    + split; [discriminate|]. intros Hex. apply Hnull in Hex as [e He].
      discriminate He.
    + intros _. now eexists.
    + intros ->. injection Ht as <-. reflexivity.
Qed.

Lemma uniqueTags_fails_on_null_tags_witness :
  connectOutcome untaggedTable = None
  /\ answer untaggedTable "SELECT tags FROM events" []
     = inr [rowWith "2024-05-01 18:00:00" "Piano,Recital"; untaggedRow]
  /\ fst (uniqueTags untaggedTable world0) = inl (Error "Failed to fetch unique tags").
Proof.
  split; [reflexivity | split; [reflexivity|]].
  apply (proj1 (uniqueTags_fails_on_null_tags untaggedTable world0 _ eq_refl eq_refl)).
  exists untaggedRow. split; [right; left; reflexivity | reflexivity].
Defined.

(** ** White space and letter case *)

Lemma isSpace_lowerChar (c : ascii) : Js.isSpace (Js.lowerChar c) = Js.isSpace c.
Proof. destruct c as [[] [] [] [] [] [] [] []]; reflexivity. Qed.

Lemma comma_lowerChar (c : ascii) :
  Ascii.eqb (Js.lowerChar c) "," = Ascii.eqb c ",".
Proof. destruct c as [[] [] [] [] [] [] [] []]; reflexivity. Qed.

Lemma trimStart_toLowerCase (s : string) :
  Js.trimStart (Js.toLowerCase s) = Js.toLowerCase (Js.trimStart s).
Proof.
  induction s as [|c s IH]; simpl; [reflexivity|].
  rewrite isSpace_lowerChar. now destruct (Js.isSpace c).
Qed.

Lemma trimEnd_toLowerCase (s : string) :
  Js.trimEnd (Js.toLowerCase s) = Js.toLowerCase (Js.trimEnd s).
Proof.
  induction s as [|c s IH]; simpl; [reflexivity|].
  rewrite IH, isSpace_lowerChar.
  destruct (Js.trimEnd s); simpl; [now destruct (Js.isSpace c) | reflexivity].
Qed.

Lemma trim_toLowerCase (s : string) :
  Js.trim (Js.toLowerCase s) = Js.toLowerCase (Js.trim s).
Proof. unfold Js.trim. now rewrite trimStart_toLowerCase, trimEnd_toLowerCase. Qed.

Lemma trimEnd_idempotent (s : string) : Js.trimEnd (Js.trimEnd s) = Js.trimEnd s.
Proof.
  induction s as [|c s IH]; simpl; [reflexivity|].
  destruct (Js.trimEnd s) as [|d u] eqn:Hu.
  - destruct (Js.isSpace c) eqn:Hc; simpl; [reflexivity | now rewrite Hc].
  - change (Js.trimEnd (String c (String d u)))
      with (match Js.trimEnd (String d u) with
            | EmptyString => if Js.isSpace c then EmptyString else String c EmptyString
            | t => String c t
            end).
    now rewrite IH.
Qed.

Lemma trimStart_head (s : string) :
  match Js.trimStart s with
  | EmptyString => True
  | String c _ => Js.isSpace c = false
  end.
Proof.
  induction s as [|c s IH]; simpl; [exact I|].
  destruct (Js.isSpace c) eqn:Hc; [exact IH | exact Hc].
Qed.

Lemma trimStart_trimEnd (s : string) :
  match s with
  | EmptyString => True
  | String c _ => Js.isSpace c = false
  end ->
  Js.trimStart (Js.trimEnd s) = Js.trimEnd s.
Proof.
  destruct s as [|c s]; [reflexivity|]. intros Hc. simpl.
  destruct (Js.trimEnd s); rewrite ?Hc; simpl; now rewrite Hc.
Qed.

Lemma trim_idempotent (s : string) : Js.trim (Js.trim s) = Js.trim s.
Proof.
  unfold Js.trim. rewrite (trimStart_trimEnd _ (trimStart_head s)).
  apply trimEnd_idempotent.
Qed.

Lemma splitComma_toLowerCase (s : string) :
  Js.splitComma (Js.toLowerCase s) = map Js.toLowerCase (Js.splitComma s).
Proof.
  induction s as [|c s IH]; simpl; [reflexivity|].
  rewrite comma_lowerChar, IH.
  destruct (Ascii.eqb c ","); [reflexivity|].
  now destruct (Js.splitComma s).
Qed.

(** X8. Every tag made of ASCII characters that [uniqueTags] lists is in the
    form that [events] gives to a requested tag: trimming it and putting it in
    lower case change nothing. *)
Theorem listed_tags_are_normalized (db : Backend) (w : World) (l : list string)
    (x : string)
    (Hlist : fst (uniqueTags db w) = inr l) (Hin : In x l)
    (Hascii : Js.isAscii x = true) :
  Js.trim x = x /\ Js.toLowerCase x = x
  /\ normalizeTags [Some x] = inr [x].
Proof.
  rewrite uniqueTags_result in Hlist.
  destruct (connectOutcome db); [discriminate|].
  destruct (answer db _ _) as [e|rows]; [discriminate|].
  destruct (allTags rows) as [e|tagList] eqn:Ht; [discriminate|].
  injection Hlist as <-.
  apply (proj2 (uniqueFrom_spec tagList [])) in Hin as [Hin _].
  apply (allTags_spec rows tagList Ht) in Hin
    as (row & stored & piece & _ & _ & _ & ->).
  assert (H1 : Js.trim (Js.toLowerCase (Js.trim piece)) = Js.toLowerCase (Js.trim piece))
    by (now rewrite trim_toLowerCase, trim_idempotent).
  split; [exact H1 | split; [apply toLowerCase_idempotent|]].
  simpl. now rewrite H1, toLowerCase_idempotent.
Qed.

Lemma listed_tags_are_normalized_witness :
  fst (uniqueTags twoRows world0) = inr ["piano"; "recital"; "music"; "jazz"]
  /\ In "jazz" ["piano"; "recital"; "music"; "jazz"]
  /\ Js.isAscii "jazz" = true
  /\ normalizeTags [Some "jazz"] = inr ["jazz"].
Proof.
  assert (Hin : In "jazz" ["piano"; "recital"; "music"; "jazz"])
    by (simpl; tauto).
  split; [reflexivity | split; [exact Hin | split; [reflexivity|]]].
  exact (proj2 (proj2 (listed_tags_are_normalized twoRows world0 _ "jazz"
                         eq_refl Hin eq_refl))).
Defined.

(** X9. On a row whose stored tags are ASCII and have no white space around
    them, [uniqueTags] and the tag filter of [events] agree: when the tag that
    [uniqueTags] derives from a piece of the row is given back to [events] as
    the requested tag, the statement that is built has the group of that one
    tag, its value is the tag as listed, and the group is true on that row. *)
Theorem listed_tag_selects_its_clean_row
    (columnTest : Sql.Predicate -> string -> Event.t -> option bool)
    (row : Event.t) (stored piece : string) (a : EventsArgs) (st : QueryState)
    (Hstored : Event.tags row = Some stored) (Hnonempty : stored <> "")
    (Hascii : Js.isAscii stored = true)
    (Hpiece : In piece (Js.splitComma stored)) (Hclean : Js.trim piece = piece)
    (Htags : tags a = Some [Some (Js.toLowerCase (Js.trim piece))])
    (Hbuilt : buildQuery a = inr st) :
  (exists listed, rowTags row = inr listed
                  /\ In (Js.toLowerCase (Js.trim piece)) listed)
  /\ query st = "SELECT * FROM events WHERE "
                ++ Sql.render
                     (Sql.conjunction Sql.CTrue
                        (map fst (stringContributions a)
                         ++ [tagGroup (Some (Js.toLowerCase (Js.trim piece))) []]))
                ++ orderClause a ++ limitClause a ++ offsetClause a
  /\ params st = (concat (map snd (stringContributions a))
                  ++ [Js.toLowerCase (Js.trim piece)]
                  ++ pagingValue (limit a) ++ pagingValue (offset a))%list
  /\ Sql.selects columnTest
       (tagGroup (Some (Js.toLowerCase (Js.trim piece))) [])
       [Js.toLowerCase (Js.trim piece)] row.
Proof.
  assert (Hnorm : Js.toLowerCase (Js.trim (Js.toLowerCase (Js.trim piece)))
                  = Js.toLowerCase (Js.trim piece))
    by (now rewrite trim_toLowerCase, trim_idempotent, toLowerCase_idempotent).
  destruct (tagged_statement a _ [] st Htags Hbuilt) as (_ & Hq & Hp).
  cbn [requestedTags] in Hp. rewrite Hnorm in Hp.
  split; [|split; [exact Hq | split; [exact Hp|]]].
  - unfold rowTags. rewrite Hstored. eexists. split; [reflexivity|].
    apply in_map_iff. now exists piece.
  - apply (selects_tagGroup columnTest row
             (Some (Js.toLowerCase (Js.trim piece))) []
             (Js.toLowerCase (Js.trim piece)) [] eq_refl).
    exists (Js.toLowerCase (Js.trim piece)). split; [now left|].
    apply tagInSet_true. exists stored. split; [exact Hstored|].
    unfold Sql.LOWER. rewrite toLowerCase_idempotent, Hclean.
    unfold Sql.elements. destruct stored as [|c s]; [now elim Hnonempty|].
    change (match Js.toLowerCase (String c s) with
            | EmptyString => []
            | String _ _ => Js.splitComma (Js.toLowerCase (String c s))
            end)
      with (Js.splitComma (Js.toLowerCase (String c s))).
    rewrite splitComma_toLowerCase. now apply in_map.
Qed.

Lemma listed_tag_selects_its_clean_row_witness :
  Event.tags (rowWith "2024-05-01 18:00:00" "Piano,Recital") = Some "Piano,Recital"
  /\ "Piano,Recital" <> ""
  /\ Js.isAscii "Piano,Recital" = true
  /\ In "Recital" (Js.splitComma "Piano,Recital")
  /\ Js.trim "Recital" = "Recital"
  /\ tags recitalOnly = Some [Some "recital"]
  /\ buildQuery recitalOnly = inr recitalState
  /\ Sql.selects anyRow (tagGroup (Some "recital") []) ["recital"]
       (rowWith "2024-05-01 18:00:00" "Piano,Recital").
Proof.
  assert (Hin : In "Recital" (Js.splitComma "Piano,Recital"))
    by (simpl; tauto).
  split; [reflexivity | split; [discriminate | split; [reflexivity|]]].
  split; [exact Hin | split; [reflexivity | split; [reflexivity|]]].
  split; [reflexivity|].
  exact (proj2 (proj2 (proj2 (listed_tag_selects_its_clean_row anyRow
                         (rowWith "2024-05-01 18:00:00" "Piano,Recital")
                         "Piano,Recital" "Recital" recitalOnly recitalState
                         eq_refl ltac:(discriminate) eq_refl Hin eq_refl
                         eq_refl eq_refl)))).
Defined.

(** ** [distinctVenues] and [lastUpdated] *)

(** X10. Once the connection is established and the server has answered with
    rows, [distinctVenues] does not fail: it returns one venue per row, in the
    order of the rows, a [NULL] venue as [null]; it removes nothing itself. *)
Theorem distinctVenues_keeps_every_row (db : Backend) (w : World)
    (rows : list Event.t)
    (Hconnect : connectOutcome db = None)
    (Hrows : answer db "SELECT DISTINCT venue FROM events" [] = inr rows) :
  exists venues,
    fst (distinctVenues db w) = inr venues
    /\ map venue venues = map Event.venue rows
    /\ length venues = length rows.
Proof.
  rewrite distinctVenues_run. unfold oneStatement. rewrite Hconnect, Hrows.
  cbn [fst caught]. eexists. split; [reflexivity|].
  rewrite map_map, length_map. now split.
Qed.

Lemma distinctVenues_keeps_every_row_witness :
  connectOutcome untaggedTable = None
  /\ answer untaggedTable "SELECT DISTINCT venue FROM events" []
     = inr [rowWith "2024-05-01 18:00:00" "Piano,Recital"; untaggedRow]
  /\ exists venues,
       fst (distinctVenues untaggedTable world0) = inr venues
       /\ map venue venues = [Some "Paul Hall"; None].
Proof.
  split; [reflexivity | split; [reflexivity|]].
  destruct (distinctVenues_keeps_every_row untaggedTable world0 _ eq_refl eq_refl)
    as [venues [H1 [H2 _]]].
  exists venues. split; [exact H1 | exact H2].
Defined.

(** X11. Once the connection is established and the server has answered,
    [lastUpdated] does not fail: it returns [null] when there is no row, and
    the value of the first row, [null] for [NULL], otherwise; the caller
    cannot tell an empty answer from a [NULL]. *)
Theorem lastUpdated_reads_the_first_row (db : Backend) (w : World)
    (rows : list Event.t)
    (Hconnect : connectOutcome db = None)
    (Hrows : answer db "SELECT MAX(last_updated) AS last_updated FROM events" []
             = inr rows) :
  fst (lastUpdated db w) = inr match hd_error rows with Some row => Event.last_updated row | None => None end
  /\ (rows = [] -> fst (lastUpdated db w) = inr None)
  /\ (forall row rest, rows = row :: rest ->
        fst (lastUpdated db w) = inr (Event.last_updated row)).
Proof.
  rewrite lastUpdated_run. unfold oneStatement. rewrite Hconnect, Hrows.
  cbn [fst caught]. split; [now destruct rows | split].
  - now intros ->.
  - now intros row rest ->.
Qed.

Lemma lastUpdated_reads_the_first_row_witness :
  connectOutcome twoRows = None
  /\ answer twoRows "SELECT MAX(last_updated) AS last_updated FROM events" []
     = inr [rowWith "2024-05-01 18:00:00" "Piano,Recital";
            rowWith "2024-05-02 19:30:00" "music, jazz"]
  /\ fst (lastUpdated twoRows world0) = inr (Some "2024-05-01 18:00:00").
Proof.
  split; [reflexivity | split; [reflexivity|]].
  exact (proj1 (lastUpdated_reads_the_first_row twoRows world0 _ eq_refl eq_refl)).
Defined.

(** ** The values of the paging *)

Lemma readNumber_numberToString (n : Z) :
  readNumber (Js.numberToString n) = Some n.
Proof.
  unfold readNumber, Js.numberToString. rewrite NilZero.isi.
  - simpl. now rewrite DecimalZ.of_to.
  - destruct n; simpl; try discriminate.
    intros [= H]. now apply Unsigned.to_uint_nonnil in H.
  - destruct n; simpl; try discriminate.
    intros [= H]. now apply Unsigned.to_uint_nonnil in H.
Qed.

(** X12. The values bound to [LIMIT ?] and [OFFSET ?] are the decimal texts of
    the numbers of the request: they are the last values of the statement, in
    that order, and reading them back gives the limit and the offset. *)
Theorem paging_values_read_back (a : EventsArgs) (st : QueryState) (n m : Z)
    (Hbuilt : buildQuery a = inr st)
    (Hlimit : limit a = Js.JsNumber n) (Hn : (0 < n)%Z)
    (Hoffset : offset a = Js.JsNumber m) (Hm : (0 < m)%Z) :
  exists vl vo,
    params st = (concat (map snd (contributed a)) ++ [vl; vo])%list
    /\ endsWith (query st) " LIMIT ? OFFSET ?" = true
    /\ readNumber vl = Some n
    /\ readNumber vo = Some m.
Proof.
  destruct (buildQuery_inr a st Hbuilt) as [Hq Hp].
  exists (Js.numberToString n), (Js.numberToString m).
  assert (Hl : Js.positiveNumber (limit a) = Some n)
    by (apply positiveNumber_Some; now split).
  assert (Ho : Js.positiveNumber (offset a) = Some m)
    by (apply positiveNumber_Some; now split).
  split; [|split; [|split; apply readNumber_numberToString]].
  - rewrite Hp. unfold valuesOf, whereValues, pagingValue. now rewrite Hl, Ho.
  - rewrite Hq. unfold statementOf, limitClause, offsetClause. rewrite Hl, Ho.
    change (" LIMIT ?" ++ " OFFSET ?") with " LIMIT ? OFFSET ?".
    rewrite <- !append_assoc. apply endsWith_append.
Qed.

Lemma paging_values_read_back_witness :
  buildQuery sampleRequest = inr sampleState
  /\ limit sampleRequest = Js.JsNumber 10 /\ (0 < 10)%Z
  /\ offset sampleRequest = Js.JsNumber 20 /\ (0 < 20)%Z
  /\ exists vl vo,
       params sampleState
       = (concat (map snd (contributed sampleRequest)) ++ [vl; vo])%list
       /\ readNumber vl = Some 10%Z /\ readNumber vo = Some 20%Z.
Proof.
  split; [reflexivity | split; [reflexivity | split; [lia|]]].
  split; [reflexivity | split; [lia|]].
  destruct (paging_values_read_back sampleRequest sampleState 10 20 eq_refl
              eq_refl ltac:(lia) eq_refl ltac:(lia))
    as (vl & vo & H1 & _ & H2 & H3).
  exists vl, vo. split; [exact H1 | split; [exact H2 | exact H3]].
Defined.

(** ** The connections from one request to the next *)

Lemma ended_connected_open (w w1 : World) :
  wellFormed w ->
  nextConnection w1 = S (nextConnection w) ->
  openConnections w1 = nextConnection w :: openConnections w ->
  openConnections (ended (nextConnection w) w1) = openConnections w
  /\ nextConnection (ended (nextConnection w) w1) = S (nextConnection w).
Proof.
  intros Hwf Hn Ho. unfold ended. cbn [snd connectionEnd openConnections nextConnection].
  split; [|exact Hn]. rewrite Ho. cbn [filter].
  rewrite Nat.eqb_refl. cbn [negb]. apply forallb_filter_id.
  apply forallb_forall. intros c Hc. apply negb_true_iff, Nat.eqb_neq.
  unfold wellFormed in Hwf. rewrite Forall_forall in Hwf.
  specialize (Hwf c Hc). lia.
Qed.

Lemma oneStatement_open {A : Type} (db : Backend) message statement values
    (process : list Event.t -> Exn + A) (w : World) :
  wellFormed w ->
  let w' := snd (oneStatement db message statement values process w) in
  openConnections w' = openConnections w
  /\ nextConnection w' = match connectOutcome db with
                         | Some _ => nextConnection w
                         | None => S (nextConnection w)
                         end.
Proof.
  intros Hwf. unfold oneStatement. destruct (connectOutcome db); cbn [snd].
  - now split.
  - now apply ended_connected_open.
Qed.

Lemma wellFormed_next (w w' : World) :
  wellFormed w -> openConnections w' = openConnections w ->
  nextConnection w <= nextConnection w' -> wellFormed w'.
Proof.
  unfold wellFormed. intros Hwf -> Hle.
  apply (Forall_impl _ (fun c (Hc : c < nextConnection w) => Nat.lt_le_trans _ _ _ Hc Hle)).
  exact Hwf.
Qed.

(** X13. In a state where every open handle is older than the next handle,
    each of the four resolvers leaves the list of the open connections exactly
    as it was, uses up one handle when the server accepts the connection and
    none when it refuses, and leaves a state of the same kind: requests served
    one after the other never accumulate connections. *)
Theorem requests_do_not_accumulate_connections (db : Backend) (w : World)
    (Hwf : wellFormed w) :
  let used := match connectOutcome db with
              | Some _ => nextConnection w
              | None => S (nextConnection w)
              end in
  (forall a, openConnections (snd (events db a w)) = openConnections w
             /\ nextConnection (snd (events db a w)) = used
             /\ wellFormed (snd (events db a w)))
  /\ (openConnections (snd (uniqueTags db w)) = openConnections w
      /\ nextConnection (snd (uniqueTags db w)) = used
      /\ wellFormed (snd (uniqueTags db w)))
  /\ (openConnections (snd (distinctVenues db w)) = openConnections w
      /\ nextConnection (snd (distinctVenues db w)) = used
      /\ wellFormed (snd (distinctVenues db w)))
  /\ (openConnections (snd (lastUpdated db w)) = openConnections w
      /\ nextConnection (snd (lastUpdated db w)) = used
      /\ wellFormed (snd (lastUpdated db w))).
Proof.
  intros used.
  assert (Hkeep : forall w', openConnections w' = openConnections w ->
                             nextConnection w' = used ->
                             openConnections w' = openConnections w
                             /\ nextConnection w' = used /\ wellFormed w').
  { intros w' Ho Hn. split; [exact Ho | split; [exact Hn|]].
    apply (wellFormed_next w w' Hwf Ho). rewrite Hn. unfold used.
    destruct (connectOutcome db); lia. }
  split; [|split; [|split]].
  - intros a. rewrite events_run. destruct (buildQuery a) as [e|st].
    + apply Hkeep; unfold used; destruct (connectOutcome db);
        try reflexivity;
        now destruct (ended_connected_open w (connected w) Hwf eq_refl eq_refl).
    + destruct (oneStatement_open db "Failed to fetch events" (query st)
                  (params st) (fun rows => inr rows) w Hwf) as [Ho Hn].
      now apply Hkeep.
  - rewrite uniqueTags_run.
    destruct (oneStatement_open db "Failed to fetch unique tags"
                "SELECT tags FROM events" []
                (fun rows => match allTags rows with
                             | inl e => inl e
                             | inr l => inr (Js.unique l)
                             end) w Hwf) as [Ho Hn].
    now apply Hkeep.
  - rewrite distinctVenues_run.
    destruct (oneStatement_open db "Failed to fetch distinct venues"
                "SELECT DISTINCT venue FROM events" []
                (fun rows => inr (map (fun row => {| venue := Event.venue row |}) rows))
                w Hwf) as [Ho Hn].
    now apply Hkeep.
  - rewrite lastUpdated_run.
    destruct (oneStatement_open db "Failed to fetch last_updated"
                "SELECT MAX(last_updated) AS last_updated FROM events" []
                (fun rows => inr match rows with
                                 | row :: _ => Event.last_updated row
                                 | [] => None
                                 end) w Hwf) as [Ho Hn].
    now apply Hkeep.
Qed.

Lemma requests_do_not_accumulate_connections_witness :
  wellFormed world0
  /\ openConnections (snd (uniqueTags twoRows (snd (events twoRows sampleRequest world0))))
     = [].
Proof.
  assert (H0 : wellFormed world0) by constructor.
  split; [exact H0|].
  destruct (proj1 (requests_do_not_accumulate_connections twoRows world0 H0)
              sampleRequest) as [Ho [_ Hwf]].
  destruct (proj1 (proj2 (requests_do_not_accumulate_connections twoRows
              (snd (events twoRows sampleRequest world0)) Hwf))) as [Ho' _].
  rewrite Ho'. exact Ho.
Defined.

(** ** The compiled resolvers *)

Lemma runSteps_app (steps1 steps2 : list Step) (st : QueryState) :
  runSteps (steps1 ++ steps2) st
  = match runSteps steps1 st with
    | inl e => inl e
    | inr st' => runSteps steps2 st'
    end.
Proof.
  revert st. induction steps1 as [|step steps1 IH]; intros st; simpl;
    [reflexivity|].
  destruct (step st); [reflexivity | apply IH].
Qed.

Lemma buildQuery_after_compiled (a : EventsArgs) :
  buildQuery a
  = match Dist.buildQuery a with
    | inl e => inl e
    | inr st => runSteps [stepLimit a; stepOffset a] st
    end.
Proof.
  unfold buildQuery, Dist.buildQuery.
  change (eventsSteps a) with (Dist.eventsSteps a ++ [stepLimit a; stepOffset a])%list.
  apply runSteps_app.
Qed.

(** X14. The compiled [events], which has no paging, builds the statement
    that the [events] of [index.ts] builds for the same request without limit
    and offset, and does the same thing on every server; for a request with a
    limit or an offset that is not a positive number the two agree as well.
    The two [uniqueTags] are the same function. *)
Theorem compiled_events_is_events_without_paging (a : EventsArgs) :
  Dist.buildQuery a
  = buildQuery (withOffset Js.JsUndefined (withLimit Js.JsUndefined a))
  /\ (forall db w,
        Dist.events db a w
        = events db (withOffset Js.JsUndefined (withLimit Js.JsUndefined a)) w)
  /\ (Js.positiveNumber (limit a) = None -> Js.positiveNumber (offset a) = None ->
      forall db w, Dist.events db a w = events db a w)
  /\ (forall db w, Dist.uniqueTags db w = uniqueTags db w).
Proof.
  assert (H1 : Dist.buildQuery a
               = buildQuery (withOffset Js.JsUndefined (withLimit Js.JsUndefined a))).
  { rewrite buildQuery_after_compiled.
    change (Dist.buildQuery (withOffset Js.JsUndefined (withLimit Js.JsUndefined a)))
      with (Dist.buildQuery a).
    now destruct (Dist.buildQuery a). }
  assert (H2 : forall b db w, Dist.buildQuery a = buildQuery b ->
                              Dist.events db a w = events db b w).
  { intros b db w Hb. unfold Dist.events, events. now rewrite Hb. }
  split; [exact H1 | split; [|split]].
  - intros db w. now apply H2.
  - intros Hl Ho db w. apply H2. rewrite buildQuery_after_compiled.
    unfold stepLimit, stepOffset. cbn [runSteps]. rewrite Hl, Ho.
    now destruct (Dist.buildQuery a).
  - reflexivity.
Qed.

(** ** A server that cannot be reached *)

(** X15. When the server refuses the connection, each of the four resolvers
    throws the error of the driver itself, not its generic error; it runs no
    statement and ends no connection, since the connection is requested
    before the [try] block. *)
Theorem refused_connection_propagates (db : Backend) (e : Exn) (w : World)
    (Hrefused : connectOutcome db = Some e) :
  (forall a, events db a w = (inl e, record Refused w))
  /\ uniqueTags db w = (inl e, record Refused w)
  /\ distinctVenues db w = (inl e, record Refused w)
  /\ lastUpdated db w = (inl e, record Refused w).
Proof.
  split; [|split; [|split]].
  - intros a. rewrite events_run. unfold oneStatement. rewrite Hrefused.
    now destruct (buildQuery a).
  - rewrite uniqueTags_run. unfold oneStatement. now rewrite Hrefused.
  - rewrite distinctVenues_run. unfold oneStatement. now rewrite Hrefused.
  - rewrite lastUpdated_run. unfold oneStatement. now rewrite Hrefused.
Qed.

Lemma refused_connection_propagates_witness :
  connectOutcome unreachable = Some (DbError "ECONNREFUSED")
  /\ events unreachable sortByTitle world0
     = (inl (DbError "ECONNREFUSED"), record Refused world0).
Proof.
  split; [reflexivity|].
  exact (proj1 (refused_connection_propagates unreachable _ world0 eq_refl)
           sortByTitle).
Defined.

(** ** Blank pieces *)

Lemma splitComma_trailing_comma (s : string) :
  In "" (Js.splitComma (s ++ ",")).
Proof.
  assert (H : exists p pieces,
                Js.splitComma (s ++ ",") = (p :: pieces ++ [""])%list).
  { induction s as [|c s [p [pieces IH]]]; simpl.
    - now exists "", [].
    - destruct (Ascii.eqb c ",").
      + exists "", (p :: pieces). now rewrite IH.
      + rewrite IH. now exists (String c p), pieces. }
  destruct H as [p [pieces ->]]. right. apply in_or_app. right. now left.
Qed.

(** X16. [uniqueTags] does not drop blank pieces: when it returns a list and
    the tags of a returned row have a piece that is empty or made of white
    space (an empty column, a trailing comma, two commas in a row), the empty
    string is one of the listed tags. *)
Theorem blank_piece_lists_the_empty_tag (db : Backend) (w : World)
    (l : list string) (rows : list Event.t) (row : Event.t)
    (stored piece : string)
    (Hlist : fst (uniqueTags db w) = inr l)
    (Hrows : answer db "SELECT tags FROM events" [] = inr rows)
    (Hrow : In row rows) (Hstored : Event.tags row = Some stored)
    (Hpiece : In piece (Js.splitComma stored)) (Hblank : Js.trim piece = "") :
  In "" l
  /\ In "" (Js.splitComma "")
  /\ (forall s, In "" (Js.splitComma (s ++ ","))).
Proof.
  split; [|split].
  - rewrite uniqueTags_result in Hlist.
    destruct (connectOutcome db); [discriminate|]. rewrite Hrows in Hlist.
    destruct (allTags rows) as [e'|tagList] eqn:Ht; [discriminate|].
    injection Hlist as <-.
    apply (proj2 (uniqueFrom_spec tagList [])). split; [|intros []].
    apply (allTags_spec rows tagList Ht).
    exists row, stored, piece. now rewrite Hblank.
  - now left.
  - intros s. apply splitComma_trailing_comma.
Qed.

Lemma blank_piece_lists_the_empty_tag_witness :
  fst (uniqueTags trailingCommaTable world0) = inr ["jazz"; ""]
  /\ answer trailingCommaTable "SELECT tags FROM events" [] = inr [trailingCommaRow]
  /\ In trailingCommaRow [trailingCommaRow]
  /\ Event.tags trailingCommaRow = Some "jazz,"
  /\ In "" (Js.splitComma "jazz,")
  /\ Js.trim "" = ""
  /\ In "" ["jazz"; ""].
Proof.
  assert (Hrow : In trailingCommaRow [trailingCommaRow]) by (now left).
  assert (Hpiece : In "" (Js.splitComma "jazz,")) by (simpl; tauto).
  split; [reflexivity | split; [reflexivity | split; [exact Hrow|]]].
  split; [reflexivity | split; [exact Hpiece | split; [reflexivity|]]].
  exact (proj1 (blank_piece_lists_the_empty_tag trailingCommaTable world0
                  ["jazz"; ""] [trailingCommaRow] trailingCommaRow "jazz," ""
                  eq_refl eq_refl Hrow eq_refl Hpiece eq_refl)).
Defined.
